(** * Vision-Z: relevance filtering, proximity alerts, description throttle

    A shallow embedding of the policy code of the "Vision-Z - Claude"
    prototype:

    - [core/object_detector.py]    : [ObjectDetector.filter_relevant]
    - [core/audio_feedback.py]     : [ProximityAlertSystem.check_proximity]
    - [core/language_processor.py] : [LanguageProcessor.generate_description],
                                     [_fallback_description] and the adaptive
                                     subclass
    - [utils/battery_optimizer.py] : [BatteryOptimizer.update_battery_status]
    - [core/camera_handler.py]     : [CameraHandler._capture_loop] and [read]
    - [utils/distance_estimator.py]: [estimate_distance]

    Numbers.  Python floats (distances in metres, clock readings in seconds)
    are modelled as rationals [Q]; every threshold the code compares against
    is written as the same decimal literal.  Battery levels and frame sizes
    are Python ints, modelled as [Z].  Text is [string]. *)

From Stdlib Require Import QArith Lqa ZArith Ascii String List.
From stdpp Require Import gmap strings list fin_maps sorting.

Local Open Scope string_scope.
Local Open Scope list_scope.
Local Open Scope Q_scope.

(** ** Comparisons on rationals as booleans *)

(** [a < b] as the code evaluates it: a test with a boolean outcome. *)
Definition Qltb (a b : Q) : bool := negb (Qle_bool b a).

(** Non-decreasing clock readings compose. *)
#[global] Instance Qle_transitive : Transitive Qle := Qle_trans.

(** ** Data model *)

(** A bounding box [[x1, y1, x2, y2]] in pixels. *)
Record BBox := mkBBox { x1 : Q; y1 : Q; x2 : Q; y2 : Q }.

(** [frame.shape]: (height, width, channels). *)
Record FrameShape := mkFrameShape {
  frame_height : Z;
  frame_width : Z;
  frame_channels : Z
}.

(** A detection is the dict built by [ObjectDetector.detect]; the key
    ['priority'] is absent until [filter_relevant] writes it. *)
Record Detection := mkDetection {
  class : string;
  confidence : Q;
  bbox : BBox;
  distance : Q;
  position : string;
  priority : option string
}.

(** [det['priority'] = p] *)
Definition set_priority (p : string) (det : Detection) : Detection :=
  {| class := class det; confidence := confidence det; bbox := bbox det;
     distance := distance det; position := position det;
     priority := Some p |}.

(** [app/config.py]: the field of [YOLOConfig] the filter reads. *)
Record YOLOConfig := mkYOLOConfig {
  priority_classes : list string
}.

Definition default_priority_classes : list string :=
  ["person"; "car"; "bus"; "truck"; "bicycle"; "motorcycle";
   "chair"; "bench"; "door"; "stairs"].

Definition default_yolo : YOLOConfig :=
  {| priority_classes := default_priority_classes |}.

(** ** [utils/distance_estimator.py] *)

Module distance_estimator.

(** The box coordinates reach [estimate_distance] as NumPy scalars
    ([box.xyxy[0].cpu().numpy()]), so the quotient [pixel_size / frame_width]
    is NumPy's: a zero divisor gives an infinity or a NaN, not an
    exception. *)
Inductive npfloat := Finite (q : Q) | PosInf | NegInf | NaN.

Definition np_div (x : Q) (n : Z) : npfloat :=
  if (n =? 0)%Z then
    match x ?= 0 with
    | Gt => PosInf
    | Lt => NegInf
    | Eq => NaN
    end
  else Finite (x / inject_Z n).

(** [x > c] for a literal [c]; every comparison with a NaN is false. *)
Definition np_gt (x : npfloat) (c : Q) : bool :=
  match x with
  | Finite q => Qltb c q
  | PosInf => true
  | NegInf => false
  | NaN => false
  end.

(** Python's [max(a, b)]: the first argument unless the second is larger. *)
Definition max (a b : Q) : Q := if Qltb a b then b else a.

Definition estimate_distance (bbox : BBox) (frame_shape : FrameShape) : Q :=
  let pixel_width := x2 bbox - x1 bbox in
  let pixel_height := y2 bbox - y1 bbox in
  let pixel_size := max pixel_width pixel_height in
  let frame_width := frame_width frame_shape in
  let size_ratio := np_div pixel_size frame_width in
  if np_gt size_ratio 0.5 then 1.0
  else if np_gt size_ratio 0.3 then 1.5
  else if np_gt size_ratio 0.2 then 2.5
  else if np_gt size_ratio 0.1 then 4.0
  else 6.0.

(** Calibration constants. *)
Definition FOCAL_LENGTH : Q := 600.

Definition KNOWN_WIDTHS : gmap string Q :=
  list_to_map
    [("person", 0.5); ("car", 1.8); ("door", 0.9); ("chair", 0.5);
     ("bicycle", 0.6); ("bottle", 0.08); ("cell phone", 0.07);
     ("laptop", 0.35)].

(** [np.clip(x, lo, hi)]: [minimum(maximum(x, lo), hi)]. *)
Definition clip (x lo hi : Q) : Q :=
  let raised := if Qltb x lo then lo else x in
  if Qltb hi raised then hi else raised.

Definition estimate_distance_calibrated (bbox : BBox) (object_class : string)
    (frame_shape : FrameShape) : Q :=
  match KNOWN_WIDTHS !! object_class with
  | None => estimate_distance bbox frame_shape
  | Some known_width =>
      let pixel_width := x2 bbox - x1 bbox in
      if Qltb pixel_width 1 then 10.0
      else
        let distance := (known_width * FOCAL_LENGTH) / pixel_width in
        clip distance 0.5 20.0
  end.

(** [get_relative_position]: the pair (horizontal, vertical). *)
Definition get_relative_position (bbox : BBox) (frame_width : Z)
  : string * string :=
  let center_x := (x1 bbox + x2 bbox) / 2 in
  let center_y := (y1 bbox + y2 bbox) / 2 in
  let h_pos :=
    if Qltb center_x (inject_Z frame_width * 0.33) then "izquierda"
    else if Qltb (inject_Z frame_width * 0.66) center_x then "derecha"
    else "frente" in
  let frame_height := inject_Z frame_width * 0.75 in
  let v_pos :=
    if Qltb center_y (frame_height * 0.33) then "arriba"
    else if Qltb (frame_height * 0.66) center_y then "abajo"
    else "medio" in
  (h_pos, v_pos).

End distance_estimator.

(** ** [ObjectDetector] *)

Module ObjectDetector.

(** [_get_position] *)
Definition get_position (bbox : BBox) (frame_width : Z) : string :=
  let center_x := (x1 bbox + x2 bbox) / 2 in
  if Qltb center_x (inject_Z frame_width * 0.33) then "izquierda"
  else if Qltb (inject_Z frame_width * 0.66) center_x then "derecha"
  else "frente".

(** The dict [detect] builds for one box of the model's result. *)
Definition detection_of_box (class_name : string) (confidence : Q)
    (bbox : BBox) (frame_shape : FrameShape) : Detection :=
  {| class := class_name;
     confidence := confidence;
     bbox := bbox;
     distance := distance_estimator.estimate_distance bbox frame_shape;
     position := get_position bbox (frame_width frame_shape);
     priority := None |}.

(** The body of the [for] loop for one detection: [Some p] when the
    detection is appended to [relevant] with priority [p], [None] when the
    loop moves on without keeping it. *)
Definition relevance (cfg : YOLOConfig) (det : Detection) : option string :=
  if Qltb (distance det) 2.0 then Some "alta"
  else
    let in_path :=
      if String.eqb (position det) "frente" && Qltb (distance det) 4.0
      then Some "media" else None in
    if bool_decide (class det ∈ priority_classes cfg) then
      if Qltb (distance det) 5.0 then Some "media" else in_path
    else in_path.

(** What the loop appends for one detection: the detection with its
    priority written, or nothing. *)
Definition kept (cfg : YOLOConfig) (det : Detection) : option Detection :=
  (fun p => set_priority p det) <$> relevance cfg det.

(** The loop, threading the accumulator [relevant]. *)
Fixpoint filter_loop (cfg : YOLOConfig) (detections relevant : list Detection)
  : list Detection :=
  match detections with
  | [] => relevant
  | det :: rest =>
      match relevance cfg det with
      | Some p => filter_loop cfg rest (relevant ++ [set_priority p det])
      | None => filter_loop cfg rest relevant
      end
  end.

(** [return relevant[:5]] *)
Definition filter_relevant (cfg : YOLOConfig) (detections : list Detection)
  : list Detection :=
  take 5 (filter_loop cfg detections []).

(** The input list after the call: the loop writes ['priority'] into the
    very dicts it was handed, kept ones only. *)
Definition detections_after (cfg : YOLOConfig) (detections : list Detection)
  : list Detection :=
  map (fun det => match relevance cfg det with
                  | Some p => set_priority p det
                  | None => det
                  end) detections.

(** One entry of [result.boxes], with the class name already looked up in
    [self.class_names]. *)
Record Box := mkBox {
  box_class : string;
  box_conf : Q;
  box_xyxy : BBox
}.

(** [detections.sort(key=lambda x: x['distance'])].  Python's sort is
    stable, and a stable sort has one possible result; it is computed here
    by insertion, each detection going in front of the first one that is
    not nearer. *)
Fixpoint insert_by_distance (det : Detection) (sorted : list Detection)
  : list Detection :=
  match sorted with
  | [] => [det]
  | other :: rest =>
      if Qltb (distance other) (distance det)
      then other :: insert_by_distance det rest
      else det :: other :: rest
  end.

Fixpoint sort_by_distance (detections : list Detection) : list Detection :=
  match detections with
  | [] => []
  | det :: rest => insert_by_distance det (sort_by_distance rest)
  end.

(** [detect], from the boxes the model returned for the frame (none when it
    returned no result). *)
Definition detect (boxes : list Box) (frame_shape : FrameShape)
  : list Detection :=
  let detections :=
    map (fun box => detection_of_box (box_class box) (box_conf box)
                      (box_xyxy box) frame_shape) boxes in
  sort_by_distance detections.

End ObjectDetector.

(** ** The relevance policy as the specification words it *)

Module RelevanceSpec.

Inductive Priority := High | Medium.

Definition priority_name (p : Priority) : string :=
  match p with High => "alta" | Medium => "media" end.

(** First matching rule wins. *)
Definition decide_rule (cfg : YOLOConfig) (det : Detection) : option Priority :=
  if Qltb (distance det) 2.0 then Some High
  else if bool_decide (class det ∈ priority_classes cfg)
          && Qltb (distance det) 5.0 then Some Medium
  else if bool_decide (position det = "frente")
          && Qltb (distance det) 4.0 then Some Medium
  else None.

Definition keep (cfg : YOLOConfig) (det : Detection) : option Detection :=
  match decide_rule cfg det with
  | Some p => Some (set_priority (priority_name p) det)
  | None => None
  end.

Definition filtered (cfg : YOLOConfig) (detections : list Detection)
  : list Detection :=
  take 5 (omap (keep cfg) detections).

End RelevanceSpec.

(** ** [ProximityAlertSystem] *)

Module ProximityAlertSystem.

Inductive AlertLevel := critical | warning.

(** [self.alert_distances]; the ['info'] entry is never read. *)
Definition alert_distance_critical : Q := 1.0.
Definition alert_distance_warning : Q := 2.0.
Definition alert_distance_info : Q := 4.0.

(** [self.alert_cooldown] *)
Definition alert_cooldown : Q := 3.0.

(** "Determinar nivel de alerta": [None] is Python's [None]. *)
Definition alert_level (distance : Q) : option AlertLevel :=
  if Qltb distance alert_distance_critical then Some critical
  else if Qltb distance alert_distance_warning then Some warning
  else None.

(** The level computed for a detection inside the loop. *)
Definition classify (det : Detection) : option AlertLevel :=
  alert_level (distance det).

(** What [_emit_alert] asks of the audio back end. *)
Inductive AudioAction :=
| PlayAlert (alert_type : string)
| Vibrate (pattern : string)
| Speak (text : string) (priority : string) (interrupt : bool).

Definition emit_alert (det : Detection) (level : AlertLevel)
  : list AudioAction :=
  match level with
  | critical =>
      [PlayAlert "danger"; Vibrate "double";
       Speak ("Cuidado, " +:+ class det +:+ " muy cerca") "alta" true]
  | warning => [PlayAlert "warning"; Vibrate "single"]
  end.

(** One call of [_emit_alert], recorded with the clock reading of the
    enclosing [check_proximity]. *)
Record Alert := mkAlert {
  alert_time : Q;
  alert_det : Detection;
  alert_lvl : AlertLevel
}.

Definition alert_class (a : Alert) : string := class (alert_det a).

(** The [for] loop of [check_proximity]: threads the dict
    [last_alert_time] and appends to the log of emitted alerts. *)
Fixpoint check_loop (current_time : Q) (detections : list Detection)
    (last_alert_time : gmap string Q) : gmap string Q * list Alert :=
  match detections with
  | [] => (last_alert_time, [])
  | det :: rest =>
      match alert_level (distance det) with
      | None => check_loop current_time rest last_alert_time
      | Some lvl =>
          let last_time := default 0 (last_alert_time !! class det) in
          if Qltb (current_time - last_time) alert_cooldown
          then check_loop current_time rest last_alert_time
          else
            let '(m, log) :=
              check_loop current_time rest
                (<[class det := current_time]> last_alert_time) in
            (m, mkAlert current_time det lvl :: log)
      end
  end.

(** [check_proximity], with the value of [time.time()] made an argument. *)
Definition check_proximity (current_time : Q) (detections : list Detection)
    (last_alert_time : gmap string Q) : gmap string Q * list Alert :=
  check_loop current_time detections last_alert_time.

(** A sequence of calls, each with its clock reading. *)
Fixpoint run (calls : list (Q * list Detection))
    (last_alert_time : gmap string Q) : gmap string Q * list Alert :=
  match calls with
  | [] => (last_alert_time, [])
  | (t, dets) :: rest =>
      let '(m1, log1) := check_proximity t dets last_alert_time in
      let '(m2, log2) := run rest m1 in
      (m2, log1 ++ log2)
  end.

(** [__init__]: [self.last_alert_time = {}] *)
Definition init : gmap string Q := ∅.

End ProximityAlertSystem.

(** ** [AudioFeedback] *)

Module AudioFeedback.

(** The dict [speak] puts on [audio_queue]. *)
Record Message := mkMessage {
  text : string;
  priority : string;
  timestamp : Q
}.

(** [engine] records whether [self.engine] is set ([_init_tts] leaves it
    [None] on failure); [audio_queue] is an unbounded [Queue], oldest
    message first. *)
Record t := mk {
  engine : bool;
  audio_queue : list Message;
  speaking : bool;
  enabled : bool
}.

Definition with_queue (q : list Message) (self : t) : t :=
  {| engine := engine self; audio_queue := q;
     speaking := speaking self; enabled := enabled self |}.

(** [speak]; [now] is the value of [time.time()] stored in the message. *)
Definition speak (now : Q) (text : string) (priority : string)
    (interrupt : bool) (self : t) : t :=
  if negb (enabled self) || String.eqb text "" then self
  else
    let pending :=
      if String.eqb priority "alta" || interrupt then []
      else audio_queue self in
    with_queue (pending ++ [mkMessage text priority now]) self.

(** [toggle] *)
Definition toggle (self : t) : t :=
  {| engine := engine self; audio_queue := audio_queue self;
     speaking := speaking self; enabled := negb (enabled self) |}.

(** One iteration of [_audio_loop].  [None]: [get()] blocks on an empty
    queue.  Otherwise the new state and the text that was spoken, if any;
    [say_raises] tells whether the engine raised, which the loop catches. *)
Definition audio_loop_step (say_raises : bool) (self : t)
  : option (t * option string) :=
  match audio_queue self with
  | [] => None
  | message :: rest =>
      let self := with_queue rest self in
      let quiet := {| engine := engine self; audio_queue := rest;
                      speaking := false; enabled := enabled self |} in
      if negb (enabled self) then Some (self, None)
      else if engine self then
        if say_raises then Some (quiet, None)
        else Some (quiet, Some (text message))
      else Some (self, None)
  end.

(** Iterations of the loop with an engine that does not raise, until the
    queue is empty; the texts spoken, in order. *)
Fixpoint audio_loop (fuel : nat) (self : t) : t * list string :=
  match fuel with
  | O => (self, [])
  | S fuel =>
      match audio_loop_step false self with
      | None => (self, [])
      | Some (self', spoken) =>
          let '(final, said) := audio_loop fuel self' in
          (final, option_list spoken ++ said)
      end
  end.

(** What one request of [_emit_alert] does to the audio state:
    [play_alert] and [vibrate] leave it alone. *)
Definition perform (now : Q) (action : ProximityAlertSystem.AudioAction)
    (self : t) : t :=
  match action with
  | ProximityAlertSystem.Speak text priority interrupt =>
      speak now text priority interrupt self
  | ProximityAlertSystem.PlayAlert _ => self
  | ProximityAlertSystem.Vibrate _ => self
  end.

(** [_emit_alert] for one alert; [now] is the clock reading inside
    [speak]. *)
Definition emit (alert : ProximityAlertSystem.Alert) (now : Q) (self : t)
  : t :=
  foldl (fun audio action => perform now action audio) self
    (ProximityAlertSystem.emit_alert
       (ProximityAlertSystem.alert_det alert)
       (ProximityAlertSystem.alert_lvl alert)).

(** The alerts of one [check_proximity] call, in order, each with the
    clock reading of its [speak]. *)
Definition announce (log : list (ProximityAlertSystem.Alert * Q)) (self : t)
  : t :=
  foldl (fun audio '(alert, now) => emit alert now audio) self log.

(** What reaches the audio state while the alerts of a call are emitted:
    an alert going through [_emit_alert], or the worker thread that
    [__init__] starts running one iteration of [_audio_loop].  The worker
    only takes messages off the queue, so letting it run before or after a
    whole [speak] covers its running inside one. *)
Inductive Event :=
| Alerted (alert : ProximityAlertSystem.Alert) (now : Q)
| Worker (say_raises : bool).

Definition play_event (event : Event) (self : t) : t :=
  match event with
  | Alerted alert now => emit alert now self
  | Worker say_raises =>
      match audio_loop_step say_raises self with
      | Some (self', _) => self'
      | None => self
      end
  end.

Definition play (events : list Event) (self : t) : t :=
  foldl (fun audio event => play_event event audio) self events.

End AudioFeedback.

(** ** [LanguageProcessor] *)

(** Python exceptions, as far as the description code tells them apart:
    [requests.Timeout] has a handler of its own, everything else lands in
    [except Exception]. *)
Inductive exn := Timeout | OtherException (msg : string).

Inductive outcome (A : Type) :=
| Returned (a : A)
| Raised (e : exn).
Arguments Returned {A} a.
Arguments Raised {A} e.

#[global] Instance outcome_ret : MRet outcome := fun _ a => Returned a.
#[global] Instance outcome_bind : MBind outcome := fun _ _ k c =>
  match c with
  | Returned a => k a
  | Raised e => Raised e
  end.
#[global] Instance outcome_fmap : FMap outcome := fun _ _ f c =>
  match c with
  | Returned a => Returned (f a)
  | Raised e => Raised e
  end.

(** [try: body except ...: handler] *)
Definition try_except {A} (body : outcome A) (handler : exn -> outcome A)
  : outcome A :=
  match body with
  | Returned a => Returned a
  | Raised e => handler e
  end.

(** What [requests.post] hands back when it returns: the status code and
    what [response.json()] followed by [result.get('response')] yields
    ([Raised] when the body is not JSON, [None] when the key is absent). *)
Record Response := mkResponse {
  status_code : Z;
  json_response : outcome (option string)
}.

Module LanguageProcessor.

(** [_translate_class]'s table. *)
Definition translations : gmap string string :=
  list_to_map
    [("person", "persona"); ("car", "auto"); ("truck", "camión");
     ("bicycle", "bicicleta"); ("motorcycle", "motocicleta");
     ("bus", "autobús"); ("chair", "silla"); ("door", "puerta");
     ("stairs", "escaleras"); ("bench", "banco"); ("bottle", "botella");
     ("cup", "taza"); ("fork", "tenedor"); ("knife", "cuchillo");
     ("cell phone", "teléfono"); ("laptop", "computadora");
     ("dog", "perro"); ("cat", "gato"); ("tree", "árbol")].

Definition translate_class (class_name : string) : string :=
  default class_name (translations !! class_name).

(** The word chosen for [urgencia]. *)
Definition urgencia (dist : Q) : string :=
  if Qltb dist 1.5 then "muy cerca"
  else if Qltb dist 3 then "cerca"
  else "".

(** [_fallback_description] *)
Definition fallback_description (detections : list Detection) : string :=
  match detections with
  | [] => "Camino despejado"
  | obj :: _ =>
      let obj_es := translate_class (class obj) in
      let dist := distance obj in
      let pos := position obj in
      if String.eqb pos "frente"
      then obj_es +:+ " " +:+ urgencia dist +:+ " frente a ti"
      else obj_es +:+ " " +:+ urgencia dist +:+ " a tu " +:+ pos
  end.

Section Service.

(** [str.strip] and [_clean_description] post-process the text of a
    successful reply; they are left abstract, nothing below looks inside. *)
Variable strip : string -> string.
Variable clean_description : string -> string.

(** [generate_description].  [post] is the outcome of the one
    [requests.post] call: the prompt built by [_build_context] and
    [_build_prompt] is plain string formatting that only feeds the request,
    and the reply is the service's to choose. *)
Definition generate_description (post : outcome Response)
    (detections : list Detection) : outcome string :=
  match detections with
  | [] => Returned "Camino despejado"
  | _ :: _ =>
      try_except
        (response ← post;
         if (status_code response =? 200)%Z then
           result ← json_response response;
           let description := strip (default "" result) in
           let description := clean_description description in
           Returned description
         else
           Returned (fallback_description detections))
        (fun e =>
           match e with
           | Timeout => Returned (fallback_description detections)
           | OtherException _ => Returned (fallback_description detections)
           end)
  end.

End Service.

Section Cleaning.

(** Python strings are sequences of code points; [_clean_description] is
    modelled over any character type with its three special characters
    and the whitespace test of [str.strip]. *)
Context {Char : Type} `{EqDecision Char}.
Variables (asterisk hash dot : Char).
Variable is_space : Char -> bool.

(** [text.replace(c, '')] for a one-character [c] *)
Definition remove_char (c : Char) (text : list Char) : list Char :=
  filter (fun x => x <> c) text.

Fixpoint lstrip (text : list Char) : list Char :=
  match text with
  | [] => []
  | c :: rest => if is_space c then lstrip rest else text
  end.

(** [text.strip()] *)
Definition str_strip (text : list Char) : list Char :=
  reverse (lstrip (reverse (lstrip text))).

(** The text before the last [dot], when there is one. *)
Fixpoint before_last_dot (text : list Char) : option (list Char) :=
  match text with
  | [] => None
  | c :: rest =>
      match before_last_dot rest with
      | Some head => Some (c :: head)
      | None => if decide (c = dot) then Some [] else None
      end
  end.

(** [text.rsplit('.', 1)[0]] *)
Definition rsplit_first (text : list Char) : list Char :=
  default text (before_last_dot text).

Definition _clean_description (text : list Char) : list Char :=
  let text := remove_char asterisk text in
  let text := remove_char hash text in
  let text := str_strip text in
  if (200 <? length text)%nat
  then rsplit_first (take 200 text) ++ [dot]
  else text.

End Cleaning.

End LanguageProcessor.

(** [PerformanceConfig], the field the throttle reads. *)
Record PerformanceConfig := mkPerformanceConfig {
  min_time_between_descriptions : Q
}.

Definition default_performance : PerformanceConfig :=
  {| min_time_between_descriptions := 2.0 |}.

Module AdaptiveLanguageProcessor.

(** [self.danger_threshold] *)
Definition danger_threshold : Q := 2.0.

(** [__init__]: [self.last_description_time = 0] *)
Definition init : Q := 0.

(** [any(d['distance'] < self.danger_threshold for d in detections)] *)
Definition has_danger (detections : list Detection) : bool :=
  existsb (fun d => Qltb (distance d) danger_threshold) detections.

Section Service.

Variable strip : string -> string.
Variable clean_description : string -> string.

(** The overriding [generate_description]: the state is
    [self.last_description_time], the result is [None] or the string of the
    base class. The clock reading [time.time()] is an argument. *)
Definition generate_description (cfg : PerformanceConfig)
    (post : outcome Response) (current_time : Q)
    (detections : list Detection) (last_description_time : Q)
  : outcome (option string) * Q :=
  let super := LanguageProcessor.generate_description strip clean_description in
  if has_danger detections then
    (Some <$> super post detections, current_time)
  else
    let min_interval := min_time_between_descriptions cfg in
    if Qltb (current_time - last_description_time) min_interval then
      (Returned None, last_description_time)
    else
      (Some <$> super post detections, current_time).

(** One call: the clock reading, the detections, and what the service
    does if it is asked. *)
Record Call := mkCall {
  call_time : Q;
  call_detections : list Detection;
  call_post : outcome Response
}.

(** Successive calls on one processor: each call with what it returned,
    and the timestamp at the end. *)
Definition run (cfg : PerformanceConfig) (calls : list Call) (last : Q)
  : list (Call * outcome (option string)) * Q :=
  foldl (fun '(log, last) call =>
           let '(result, last') :=
             generate_description cfg (call_post call) (call_time call)
               (call_detections call) last in
           (log ++ [(call, result)], last'))
    ([], last) calls.

End Service.

End AdaptiveLanguageProcessor.

(** ** [utils/battery_optimizer.py] *)

Inductive PowerMode := PERFORMANCE | BALANCED | POWER_SAVER | ULTRA_SAVER.

Record PowerProfile := mkPowerProfile {
  name : string;
  fps_processing : Z;
  yolo_resolution : Z * Z;
  description_interval : Q;
  use_half_precision : bool;
  ollama_enabled : bool;
  ollama_model : option string
}.

Definition POWER_PROFILES (mode : PowerMode) : PowerProfile :=
  match mode with
  | PERFORMANCE =>
      mkPowerProfile "Alto Rendimiento" 10 (640, 480)%Z 1.0 true true
        (Some "llama3.2:1b")
  | BALANCED =>
      mkPowerProfile "Balanceado" 5 (416, 416)%Z 2.0 true true
        (Some "llama3.2:1b")
  | POWER_SAVER =>
      mkPowerProfile "Ahorro de Batería" 3 (320, 320)%Z 3.0 true false None
  | ULTRA_SAVER =>
      mkPowerProfile "Ahorro Extremo" 1 (224, 224)%Z 5.0 true false None
  end.

Module BatteryOptimizer.

(** [self.thresholds], assigned in [__init__] and never written again. *)
Record Thresholds := mkThresholds {
  ultra_saver : Z;
  power_saver : Z;
  balanced : Z;
  performance : Z
}.

Definition thresholds : Thresholds :=
  {| ultra_saver := 10; power_saver := 20; balanced := 50;
     performance := 80 |}.

(** The attributes [update_battery_status] reads or writes. *)
Record t := mk {
  current_mode : PowerMode;
  battery_level : Z;
  is_charging : bool
}.

Definition init : t :=
  {| current_mode := BALANCED; battery_level := 100; is_charging := false |}.

#[global] Instance PowerMode_eq_dec : EqDecision PowerMode.
Proof. solve_decision. Defined.

(** [_switch_mode]; the printed report is not modelled. *)
Definition switch_mode (new_mode : PowerMode) (self : t) : t :=
  if bool_decide (new_mode ≠ current_mode self) then
    {| current_mode := new_mode;
       battery_level := battery_level self;
       is_charging := is_charging self |}
  else self.

Definition update_battery_status (level : Z) (is_charging : bool) (self : t)
  : t :=
  let self := {| current_mode := current_mode self;
                 battery_level := level;
                 is_charging := is_charging |} in
  if is_charging then switch_mode PERFORMANCE self
  else if (level <=? ultra_saver thresholds)%Z then
    switch_mode ULTRA_SAVER self
  else if (level <=? power_saver thresholds)%Z then
    switch_mode POWER_SAVER self
  else if (level <=? balanced thresholds)%Z then
    switch_mode BALANCED self
  else switch_mode PERFORMANCE self.

(** The table [consumption] of [estimate_battery_life] (mAh per hour). *)
Definition consumption (mode : PowerMode) : Z :=
  match mode with
  | PERFORMANCE => 800
  | BALANCED => 500
  | POWER_SAVER => 300
  | ULTRA_SAVER => 150
  end.

(** [self.stats] *)
Record Stats := mkStats {
  total_frames : Z;
  frames_skipped : Z;
  ollama_calls_skipped : Z;
  start_time : Q
}.

(** [__init__]; [now] is the value of [time.time()]. *)
Definition init_stats (now : Q) : Stats :=
  {| total_frames := 0; frames_skipped := 0; ollama_calls_skipped := 0;
     start_time := now |}.

Definition get_current_profile (self : t) : PowerProfile :=
  POWER_PROFILES (current_mode self).

Definition should_process_frame (self : t) (stats : Stats) : bool * Stats :=
  let stats := {| total_frames := total_frames stats + 1;
                  frames_skipped := frames_skipped stats;
                  ollama_calls_skipped := ollama_calls_skipped stats;
                  start_time := start_time stats |} in
  if bool_decide (current_mode self = ULTRA_SAVER) then
    if negb (total_frames stats mod 30 =? 0)%Z then
      (false, {| total_frames := total_frames stats;
                 frames_skipped := frames_skipped stats + 1;
                 ollama_calls_skipped := ollama_calls_skipped stats;
                 start_time := start_time stats |})
    else (true, stats)
  else (true, stats).

(** [should_call_ollama]; [current_time] is the value of [time.time()]. *)
Definition should_call_ollama (current_time : Q) (last_call_time : Q)
    (self : t) (stats : Stats) : bool * Stats :=
  let profile := get_current_profile self in
  if negb (ollama_enabled profile) then
    (false, {| total_frames := total_frames stats;
               frames_skipped := frames_skipped stats;
               ollama_calls_skipped := ollama_calls_skipped stats + 1;
               start_time := start_time stats |})
  else if Qltb (current_time - last_call_time) (description_interval profile)
  then (false, stats)
  else (true, stats).

(** [estimate_battery_life], in hours. *)
Definition estimate_battery_life (self : t) : Q :=
  let battery_capacity := 4000 in
  let current_consumption := inject_Z (consumption (current_mode self)) in
  let available_mah :=
    battery_capacity * (inject_Z (battery_level self) / 100) in
  available_mah / current_consumption.

(** The entry ['skip_rate'] of [get_stats]. *)
Definition skip_rate (stats : Stats) : Q :=
  inject_Z (frames_skipped stats)
  / inject_Z (Z.max (total_frames stats) 1).

(** [n] successive calls of [should_process_frame]: how many returned
    [True], and the statistics afterwards. *)
Fixpoint process_frames (n : nat) (self : t) (stats : Stats) : Z * Stats :=
  match n with
  | O => (0%Z, stats)
  | S n =>
      let '(processed, stats) := should_process_frame self stats in
      let '(count, stats) := process_frames n self stats in
      ((if processed then 1 else 0) + count, stats)%Z
  end.

End BatteryOptimizer.

(** The mode the specification's lookup table gives. *)
Definition spec_power_mode (level : Z) (charging : bool) : PowerMode :=
  if charging then PERFORMANCE
  else if (level <=? 10)%Z then ULTRA_SAVER
  else if (10 <? level)%Z && (level <=? 20)%Z then POWER_SAVER
  else if (20 <? level)%Z && (level <=? 50)%Z then BALANCED
  else PERFORMANCE.

(** ** [core/camera_handler.py] *)

(** [CameraConfig.frame_buffer_size] *)
Record CameraConfig := mkCameraConfig {
  frame_buffer_size : Z
}.

Definition default_camera : CameraConfig := {| frame_buffer_size := 10 |}.

Module CameraHandler.

Section Frames.

Variable Frame : Type.

(** Python's [queue.Queue]: [maxsize] and the items, oldest first.  A
    [maxsize] of zero or less means no bound. *)
Record Queue := mkQueue {
  maxsize : Z;
  items : list Frame
}.

Definition qsize (q : Queue) : Z := Z.of_nat (length (items q)).

(** [Queue.full]: [0 < maxsize <= qsize] *)
Definition full (q : Queue) : bool :=
  (0 <? maxsize q)%Z && (maxsize q <=? qsize q)%Z.

(** [Queue.empty] *)
Definition empty (q : Queue) : bool := (qsize q =? 0)%Z.

(** [Queue.put]: appends at the tail; [None] when the call would block
    because the queue is full. *)
Definition put (item : Frame) (q : Queue) : option Queue :=
  if full q then None
  else Some {| maxsize := maxsize q; items := items q ++ [item] |}.

(** [Queue.get]: removes the head; [None] when the call would block because
    the queue is empty. *)
Definition get (q : Queue) : option (Frame * Queue) :=
  match items q with
  | [] => None
  | item :: rest => Some (item, {| maxsize := maxsize q; items := rest |})
  end.

(** Where the capture thread stands in an iteration of [_capture_loop]:
    before the test [if not self.frame_queue.full()], or past it with the
    frame in hand and [put] still to run.  The consumer may run in
    between. *)
Inductive Capture :=
| Idle
| Holding (processed_frame : Frame).

Record State := mkState {
  frame_queue : Queue;
  capture : Capture
}.

(** [__init__]: [Queue(maxsize=config.camera.frame_buffer_size)] *)
Definition init (cfg : CameraConfig) : State :=
  {| frame_queue := {| maxsize := frame_buffer_size cfg; items := [] |};
     capture := Idle |}.

(** The atomic steps of the two threads. *)
Inductive Action :=
| Test (processed_frame : Frame)   (* capture thread: a frame was read and
                                      [full()] is evaluated *)
| Put                              (* capture thread: [put(processed_frame)] *)
| Read.                            (* consumer thread: [read()] *)

(** [None]: the action is not the thread's next step, or it blocks. *)
Definition step (a : Action) (s : State) : option State :=
  match a, capture s with
  | Test processed_frame, Idle =>
      if negb (full (frame_queue s))
      then Some {| frame_queue := frame_queue s;
                   capture := Holding processed_frame |}
      else Some s
  | Put, Holding processed_frame =>
      q ← put processed_frame (frame_queue s);
      Some {| frame_queue := q; capture := Idle |}
  | Read, c =>
      if empty (frame_queue s) then Some s
      else
        '(_, q) ← get (frame_queue s);
        Some {| frame_queue := q; capture := c |}
  | _, _ => None
  end.

Fixpoint run (actions : list Action) (s : State) : option State :=
  match actions with
  | [] => Some s
  | a :: rest => s' ← step a s; run rest s'
  end.

(** The frames of the queue, oldest first. *)
Definition frames (s : State) : list Frame := items (frame_queue s).

(** The frame a step lets into the pipeline (the capture thread found room
    for it), and the frame a step hands to the consumer. *)
Definition accepted (a : Action) (s : State) : list Frame :=
  match a, capture s with
  | Test processed_frame, Idle =>
      if full (frame_queue s) then [] else [processed_frame]
  | _, _ => []
  end.

Definition delivered (a : Action) (s : State) : list Frame :=
  match a with
  | Read => take 1 (items (frame_queue s))
  | _ => []
  end.

(** [run], also collecting the frames accepted and the frames delivered. *)
Fixpoint run_log (actions : list Action) (s : State)
  : option (State * list Frame * list Frame) :=
  match actions with
  | [] => Some (s, [], [])
  | a :: rest =>
      s' ← step a s;
      '(final, acc, del) ← run_log rest s';
      Some (final, accepted a s ++ acc, delivered a s ++ del)
  end.

(** The frame the capture thread holds between its test and its [put]. *)
Definition in_hand (s : State) : list Frame :=
  match capture s with
  | Idle => []
  | Holding processed_frame => [processed_frame]
  end.

(** The bound kept by the two threads: the queue never holds more than
    [frame_buffer_size] frames, and has room left whenever the capture
    thread is past its test with a frame in hand. *)
Definition within_bound (cfg : CameraConfig) (s : State) : Prop :=
  maxsize (frame_queue s) = frame_buffer_size cfg /\
  (qsize (frame_queue s) <= frame_buffer_size cfg)%Z /\
  forall processed_frame,
    capture s = Holding processed_frame ->
    (qsize (frame_queue s) < frame_buffer_size cfg)%Z.

End Frames.

Arguments mkQueue {Frame} maxsize items.
Arguments maxsize {Frame} q.
Arguments items {Frame} q.
Arguments qsize {Frame} q.
Arguments full {Frame} q.
Arguments empty {Frame} q.
Arguments put {Frame} item q.
Arguments get {Frame} q.
Arguments Idle {Frame}.
Arguments Holding {Frame} processed_frame.
Arguments mkState {Frame} frame_queue capture.
Arguments frame_queue {Frame} s.
Arguments capture {Frame} s.
Arguments init {Frame} cfg.
Arguments Put {Frame}.
Arguments Read {Frame}.
Arguments Test {Frame} processed_frame.
Arguments step {Frame} a s.
Arguments run {Frame} actions s.
Arguments frames {Frame} s.
Arguments accepted {Frame} a s.
Arguments delivered {Frame} a s.
Arguments run_log {Frame} actions s.
Arguments in_hand {Frame} s.
Arguments within_bound {Frame} cfg s.

End CameraHandler.

Module AdaptiveCameraHandler.

(** [update_battery]: the value of [config.camera.fps_processing] after the
    call, given its value before and the two fields of
    [config.performance] the method reads. *)
Definition update_battery (adaptive_fps : bool) (battery_save_threshold : Z)
    (level : Z) (fps_processing : Z) : Z :=
  if adaptive_fps then
    if (level <? battery_save_threshold)%Z then 2%Z
    else if (level <? 50)%Z then 3%Z
    else 5%Z
  else fps_processing.

End AdaptiveCameraHandler.

(** ** Vocabulary for the statements about descriptions *)

(** The ways the call to the description service goes wrong:
    [requests.post] raises (a timeout included), the status is not 200, or
    the body of a 200 reply cannot be read. *)
Definition service_failed (post : outcome Response) : Prop :=
  match post with
  | Raised _ => True
  | Returned response =>
      status_code response <> 200%Z \/
      exists e, json_response response = Raised e
  end.

(** The direction part of the fallback sentence. *)
Definition direction_phrase (pos : string) : string :=
  if String.eqb pos "frente" then " frente a ti" else " a tu " +:+ pos.

(** ** Sample inputs *)

Definition box0 : BBox := mkBBox 0 0 0 0.

Definition sample (class_name : string) (dist : Q) (pos : string) : Detection :=
  mkDetection class_name 0.9 box0 dist pos None.

(** Six detections at one metre; the last one is the only dog. *)
Definition six_close : list Detection :=
  [sample "person" 1.0 "frente"; sample "person" 1.0 "izquierda";
   sample "person" 1.0 "derecha"; sample "chair" 1.0 "frente";
   sample "car" 1.0 "izquierda"; sample "dog" 1.0 "frente"].

(** A frame as [detect] sorts it: nearest first. *)
Definition street : list Detection :=
  [sample "dog" 1.5 "izquierda"; sample "person" 3.0 "derecha";
   sample "bottle" 3.5 "frente"; sample "bottle" 3.5 "derecha";
   sample "car" 6.0 "frente"].

(** Ascending distance, as left by [detections.sort(key=...)]. *)
Definition nearest_first (detections : list Detection) : Prop :=
  StronglySorted (fun a b => distance a <= distance b) detections.

(** ** Vocabulary for the statements about alert logs *)

(** In a log, every later alert for the same class comes at least [gap]
    seconds after. *)
Fixpoint spaced (gap : Q) (log : list ProximityAlertSystem.Alert) : Prop :=
  match log with
  | [] => True
  | a :: rest =>
      Forall (fun b =>
                ProximityAlertSystem.alert_class a
                = ProximityAlertSystem.alert_class b ->
                gap <= ProximityAlertSystem.alert_time b
                       - ProximityAlertSystem.alert_time a) rest
      /\ spaced gap rest
  end.

(** Three calls: a person at 1.5 m, seen again one second later and once
    more four seconds after the first call. *)
Definition three_calls : list (Q * list Detection) :=
  [(1000, [sample "person" 1.5 "frente"]);
   (1001, [sample "person" 1.5 "frente"; sample "dog" 0.8 "izquierda"]);
   (1004, [sample "person" 1.5 "frente"])].

(** A queue of two frames, and a capture thread that reads three frames
    while nobody consumes. *)
Definition small_camera : CameraConfig := {| frame_buffer_size := 2 |}.

Definition capture_three : list (CameraHandler.Action nat) :=
  [CameraHandler.Test 1%nat; CameraHandler.Put;
   CameraHandler.Test 2%nat; CameraHandler.Put;
   CameraHandler.Test 3%nat].

(** The horizontal buckets, left to right. *)
Definition bucket_rank (pos : string) : Z :=
  if String.eqb pos "izquierda" then 0%Z
  else if String.eqb pos "frente" then 1%Z
  else 2%Z.

(** Box width in pixels. *)
Definition box_width (bbox : BBox) : Q := x2 bbox - x1 bbox.

(** A person 150 pixels wide. *)
Definition person_box : BBox := mkBBox 100 50 250 400.

Definition vga : FrameShape := mkFrameShape 480 640 3.

(** Whether a stamped alert is a critical one. *)
Definition is_critical (entry : ProximityAlertSystem.Alert * Q) : bool :=
  match ProximityAlertSystem.alert_lvl entry.1 with
  | ProximityAlertSystem.critical => true
  | ProximityAlertSystem.warning => false
  end.

(** The message [_emit_alert] queues for a critical alert. *)
Definition warning_message (entry : ProximityAlertSystem.Alert * Q)
  : AudioFeedback.Message :=
  AudioFeedback.mkMessage
    ("Cuidado, " +:+ ProximityAlertSystem.alert_class entry.1
       +:+ " muy cerca")
    "alta" entry.2.

(** The alerts among the events, with the clock readings of their
    [speak]. *)
Definition alerted (events : list AudioFeedback.Event)
  : list (ProximityAlertSystem.Alert * Q) :=
  omap (fun event =>
          match event with
          | AudioFeedback.Alerted alert now => Some (alert, now)
          | AudioFeedback.Worker _ => None
          end) events.

(** A critical alert for a dog, the worker speaking it, then a critical
    alert for a car. *)
Definition two_critical : list AudioFeedback.Event :=
  [AudioFeedback.Alerted
     (ProximityAlertSystem.mkAlert 1000 (sample "dog" 0.8 "frente")
        ProximityAlertSystem.critical) 1000.5;
   AudioFeedback.Worker false;
   AudioFeedback.Alerted
     (ProximityAlertSystem.mkAlert 1000 (sample "car" 0.5 "derecha")
        ProximityAlertSystem.critical) 1000.7].

(** An audio system that is switched on, with two descriptions pending. *)
Definition busy_audio : AudioFeedback.t :=
  AudioFeedback.mk true
    [AudioFeedback.mkMessage "persona cerca frente a ti" "normal" 990;
     AudioFeedback.mkMessage "silla cerca a tu derecha" "normal" 995]
    false true.

(** The statistics after a run of [should_process_frame] calls, the
    optimizer being in the given state at each call. *)
Definition frames_through (selves : list BatteryOptimizer.t)
    (stats : BatteryOptimizer.Stats) : BatteryOptimizer.Stats :=
  foldl (fun stats self => (BatteryOptimizer.should_process_frame self stats).2)
    stats selves.

(** A text that does not begin with whitespace. *)
Definition starts_clean {Char : Type} (is_space : Char -> bool)
    (text : list Char) : Prop :=
  match text with
  | [] => True
  | c :: _ => is_space c = false
  end.

(** ASCII whitespace, for examples. *)
Definition ascii_space (c : ascii) : bool :=
  bool_decide (c ∈ [" "; "009"; "010"; "011"; "012"; "013"]%char).

(** Whether a call of the adaptive processor produced a description. *)
Definition described (result : outcome (option string)) : bool :=
  match result with
  | Returned (Some _) => true
  | _ => false
  end.

(** A danger call right after a normal one, then a normal call 2.5 s
    after the first. *)
Definition three_descriptions : list AdaptiveLanguageProcessor.Call :=
  [AdaptiveLanguageProcessor.mkCall 1000
     [sample "person" 3.0 "frente"] (Raised Timeout);
   AdaptiveLanguageProcessor.mkCall 1000.5
     [sample "person" 1.5 "frente"] (Raised Timeout);
   AdaptiveLanguageProcessor.mkCall 1002.5
     [sample "person" 3.0 "frente"] (Raised Timeout)].

(** * Properties *)

(** ** Rational comparisons *)

Lemma Qltb_lt (a b : Q) : Qltb a b = true <-> a < b.
Proof.
  unfold Qltb. rewrite negb_true_iff.
  split.
  - intros Hb. apply Qnot_le_lt. intros Hle.
    apply Qle_bool_iff in Hle. congruence.
  - intros Hlt. destruct (Qle_bool b a) eqn:E; [|reflexivity].
    apply Qle_bool_iff in E. exfalso. exact (Qlt_not_le _ _ Hlt E).
Qed.

Lemma Qltb_ge (a b : Q) : Qltb a b = false <-> b <= a.
Proof.
  unfold Qltb. rewrite negb_false_iff. apply Qle_bool_iff.
Qed.

Lemma Qltb_spec (a b : Q) : reflect (a < b) (Qltb a b).
Proof.
  destruct (Qltb a b) eqn:E; constructor.
  - now apply Qltb_lt.
  - apply Qltb_ge in E. now apply Qle_not_lt.
Qed.

(** Membership in a list that is written out. *)
Ltac in_list :=
  solve [repeat first [apply list_elem_of_here | apply list_elem_of_further]].

(** Case analysis on every comparison of the goal, keeping the order facts. *)
Ltac case_Qltb :=
  repeat match goal with
         | |- context [Qltb ?a ?b] =>
             let E := fresh "Hcmp" in
             destruct (Qltb_spec a b) as [E|E];
             [| apply Qnot_lt_le in E]
         end.

(** ** The relevance filter *)

Section RelevanceFilter.

Import ObjectDetector RelevanceSpec.

Variable cfg : YOLOConfig.

Lemma relevance_decide_rule det :
  relevance cfg det = priority_name <$> decide_rule cfg det.
Proof.
  unfold relevance, decide_rule.
  destruct (String.eqb_spec (position det) "frente") as [Hpos|Hpos].
  - rewrite (bool_decide_eq_true_2 _ Hpos).
    case_Qltb; destruct (bool_decide (class det ∈ priority_classes cfg)); simpl;
      try reflexivity; exfalso; lra.
  - rewrite (bool_decide_eq_false_2 _ Hpos).
    case_Qltb; destruct (bool_decide (class det ∈ priority_classes cfg)); simpl;
      try reflexivity; exfalso; lra.
Qed.

Lemma filter_loop_omap detections relevant :
  filter_loop cfg detections relevant = relevant ++ omap (kept cfg) detections.
Proof.
  revert relevant.
  induction detections as [|det rest IH]; intros relevant; simpl.
  - by rewrite app_nil_r.
  - unfold kept at 1. destruct (relevance cfg det) as [p|]; simpl.
    + rewrite IH, <- app_assoc. reflexivity.
    + apply IH.
Qed.

Lemma filter_relevant_omap detections :
  filter_relevant cfg detections = take 5 (omap (kept cfg) detections).
Proof. unfold filter_relevant. by rewrite filter_loop_omap. Qed.

Lemma kept_keep det : kept cfg det = keep cfg det.
Proof.
  unfold kept, keep. rewrite relevance_decide_rule.
  by destruct (decide_rule cfg det).
Qed.

(** C1. [filter_relevant] is the policy of the specification: each
    detection is decided by the first matching rule (distance below 2.0:
    kept as 'alta'; priority class and distance below 5.0: kept as 'media';
    position 'frente' and distance below 4.0: kept as 'media'; otherwise
    dropped), the kept ones stay in input order and only the first five
    are returned. *)
Theorem filter_relevant_first_matching_rule detections :
  filter_relevant cfg detections = filtered cfg detections.
Proof.
  rewrite filter_relevant_omap. unfold filtered. f_equal.
  induction detections as [|det rest IH]; csimpl; [reflexivity|].
  rewrite kept_keep, IH. reflexivity.
Qed.

End RelevanceFilter.

Section RelevanceOrder.

Import ObjectDetector.

Variable cfg : YOLOConfig.

Lemma relevance_close det :
  distance det < 2.0 -> relevance cfg det = Some "alta".
Proof.
  intros Hd. unfold relevance.
  destruct (Qltb_spec (distance det) 2.0); [reflexivity|contradiction].
Qed.

Lemma kept_close det :
  distance det < 2.0 -> kept cfg det = Some (set_priority "alta" det).
Proof. intros Hd. unfold kept. by rewrite relevance_close. Qed.

Lemma kept_inv det out :
  kept cfg det = Some out -> exists p, out = set_priority p det.
Proof.
  unfold kept. destruct (relevance cfg det) as [p|]; simpl; [|discriminate].
  intros [= <-]. by exists p.
Qed.

Lemma kept_distance det out :
  kept cfg det = Some out -> distance out = distance det.
Proof. intros (p & ->)%kept_inv. reflexivity. Qed.

(** The sample with six close detections: the five first fill the output. *)
Lemma filter_relevant_six_close :
  filter_relevant default_yolo six_close
  = set_priority "alta" <$> take 5 six_close.
Proof. vm_compute. reflexivity. Qed.

(** C2, as worded, fails: the sixth detection of [six_close] is one metre
    away, yet no detection of its class is in the output. *)
Lemma close_detection_cut_by_truncation :
  sample "dog" 1.0 "frente" ∈ six_close /\
  distance (sample "dog" 1.0 "frente") < 2.0 /\
  forall out, out ∈ filter_relevant default_yolo six_close ->
              class out <> "dog".
Proof.
  split; [|split].
  - unfold six_close. set_solver.
  - reflexivity.
  - intros out. rewrite filter_relevant_six_close.
    unfold six_close. simpl. intros Hout.
    repeat (apply elem_of_cons in Hout as [->|Hout]; [discriminate|]).
    by apply elem_of_nil in Hout.
Qed.

(** C2, amended.  A detection closer than 2.0 m is in the output, marked
    'alta', whatever its class and position, as long as fewer than five
    detections are kept from the part of the input that precedes it; it then
    sits right after those. *)
Theorem close_detection_retained before det after :
  distance det < 2.0 ->
  (length (filter_relevant cfg before) < 5)%nat ->
  filter_relevant cfg (before ++ det :: after)
    !! length (filter_relevant cfg before)
  = Some (set_priority "alta" det).
Proof.
  intros Hd. rewrite !filter_relevant_omap, omap_app. csimpl.
  rewrite (kept_close _ Hd), length_take. intros Hlen.
  assert (length (omap (kept cfg) before) < 5)%nat as Hlt by lia.
  rewrite Nat.min_r by lia.
  rewrite lookup_take_lt by exact Hlt.
  apply list_lookup_middle. reflexivity.
Qed.

Lemma omap_kept_sublist_after detections :
  omap (kept cfg) detections `sublist_of` detections_after cfg detections.
Proof.
  induction detections as [|det rest IH]; csimpl; [constructor|].
  unfold kept at 1. destruct (relevance cfg det) as [p|]; simpl.
  - by apply sublist_skip.
  - by apply sublist_cons.
Qed.

Lemma omap_kept_chosen detections :
  exists chosen,
    chosen `sublist_of` detections /\
    Forall2 (fun out inp => exists p, out = set_priority p inp)
            (omap (kept cfg) detections) chosen.
Proof.
  induction detections as [|det rest (chosen & Hsub & Hall)]; csimpl.
  - exists []. split; constructor.
  - destruct (kept cfg det) as [out|] eqn:Hk.
    + exists (det :: chosen). split; [by apply sublist_skip|].
      constructor; [by apply kept_inv|exact Hall].
    + exists chosen. split; [by apply sublist_cons|exact Hall].
Qed.

Lemma omap_kept_nearest_first detections :
  nearest_first detections -> nearest_first (omap (kept cfg) detections).
Proof.
  unfold nearest_first.
  induction detections as [|det rest IH]; csimpl; intros Hs; [constructor|].
  apply StronglySorted_cons in Hs as [Hhd Hs].
  destruct (kept cfg det) as [out|] eqn:Hk; [|by apply IH].
  apply StronglySorted_cons. split; [|by apply IH].
  apply Forall_forall. intros out' (inp & Hin & Hk')%list_elem_of_omap.
  rewrite (kept_distance _ _ Hk), (kept_distance _ _ Hk').
  rewrite Forall_forall in Hhd. by apply Hhd.
Qed.

Lemma nearest_first_take n detections :
  nearest_first detections -> nearest_first (take n detections).
Proof.
  unfold nearest_first. intros Hs.
  rewrite <- (take_drop n detections) in Hs.
  by apply StronglySorted_app_1_l in Hs.
Qed.

(** C3. The output has at most five entries; and when the input is sorted
    by ascending distance, the output is a subsequence of the input (the
    same dicts, now carrying their priority, in the same order) and is
    itself sorted by ascending distance. *)
Theorem filter_relevant_bounded_ordered detections :
  (length (filter_relevant cfg detections) <= 5)%nat /\
  (nearest_first detections ->
   filter_relevant cfg detections `sublist_of` detections_after cfg detections /\
   (exists chosen,
       chosen `sublist_of` detections /\
       Forall2 (fun out inp => exists p, out = set_priority p inp)
               (filter_relevant cfg detections) chosen) /\
   nearest_first (filter_relevant cfg detections)).
Proof.
  rewrite filter_relevant_omap. split; [rewrite length_take; lia|].
  intros Hs. split; [|split].
  - etrans; [apply sublist_take|apply omap_kept_sublist_after].
  - destruct (omap_kept_chosen detections) as (chosen & Hsub & Hall).
    exists (take 5 chosen). split.
    + etrans; [apply sublist_take|exact Hsub].
    + by apply Forall2_take.
  - by apply nearest_first_take, omap_kept_nearest_first.
Qed.

End RelevanceOrder.

Lemma street_nearest_first : nearest_first street.
Proof.
  unfold nearest_first, street.
  repeat (apply StronglySorted_cons; split;
          [repeat constructor; discriminate|]).
  constructor.
Qed.

(** The dog of [six_close] right after its first three detections: nothing
    is cut, it comes fourth. *)
Lemma close_detection_retained_witness :
  distance (sample "dog" 1.0 "frente") < 2.0 /\
  (length (ObjectDetector.filter_relevant default_yolo (take 3 six_close)) < 5)%nat /\
  ObjectDetector.filter_relevant default_yolo
      (take 3 six_close ++ sample "dog" 1.0 "frente" :: [])
    !! length (ObjectDetector.filter_relevant default_yolo (take 3 six_close))
  = Some (set_priority "alta" (sample "dog" 1.0 "frente")).
Proof.
  assert (distance (sample "dog" 1.0 "frente") < 2.0) as Hd by reflexivity.
  assert (length (ObjectDetector.filter_relevant default_yolo
                    (take 3 six_close)) < 5)%nat as Hlen
      by (vm_compute; lia).
  split; [exact Hd|split; [exact Hlen|]].
  exact (close_detection_retained default_yolo (take 3 six_close)
           (sample "dog" 1.0 "frente") [] Hd Hlen).
Defined.

(** The sorted frame [street] and its filtered output. *)
Lemma filter_relevant_bounded_ordered_witness :
  nearest_first street /\
  (length (ObjectDetector.filter_relevant default_yolo street) <= 5)%nat /\
  nearest_first (ObjectDetector.filter_relevant default_yolo street).
Proof.
  destruct (filter_relevant_bounded_ordered default_yolo street)
    as [Hlen Hord].
  destruct (Hord street_nearest_first) as (_ & _ & Hsorted).
  split; [exact street_nearest_first|split; [exact Hlen|exact Hsorted]].
Defined.

(** ** Proximity alerts: the level *)

Section AlertLevels.

Import ProximityAlertSystem.

Lemma alert_level_critical d : alert_level d = Some critical <-> d < 1.0.
Proof.
  unfold alert_level, alert_distance_critical, alert_distance_warning.
  case_Qltb; split; intros H; try discriminate; try reflexivity;
    try lra; exfalso; lra.
Qed.

Lemma alert_level_warning d :
  alert_level d = Some warning <-> 1.0 <= d /\ d < 2.0.
Proof.
  unfold alert_level, alert_distance_critical, alert_distance_warning.
  case_Qltb; split; intros H; try discriminate; try reflexivity;
    try lra; exfalso; lra.
Qed.

Lemma alert_level_none d : alert_level d = None <-> 2.0 <= d.
Proof.
  unfold alert_level, alert_distance_critical, alert_distance_warning.
  case_Qltb; split; intros H; try discriminate; try reflexivity;
    try lra; exfalso; lra.
Qed.

(** C4. The level depends on the distance alone: 'critical' exactly below
    1.0 m, 'warning' exactly from 1.0 m up to (not including) 2.0 m, no
    alert from 2.0 m on; 0.8 is critical, 1.5 a warning, 3.0 nothing. *)
Theorem alert_level_thresholds det :
  classify det = alert_level (distance det) /\
  (classify det = Some critical <-> distance det < 1.0) /\
  (classify det = Some warning <-> 1.0 <= distance det /\ distance det < 2.0) /\
  (classify det = None <-> ~ distance det < 2.0) /\
  alert_level 0.8 = Some critical /\
  alert_level 1.5 = Some warning /\
  alert_level 3.0 = None.
Proof.
  unfold classify. repeat split; try reflexivity.
  - apply alert_level_critical.
  - apply alert_level_critical.
  - by apply alert_level_warning.
  - by apply alert_level_warning.
  - intros [? ?]. by apply alert_level_warning.
  - intros H%alert_level_none. by apply Qle_not_lt.
  - intros H%Qnot_lt_le. by apply alert_level_none.
Qed.

End AlertLevels.

(** ** The basic distance estimate *)

Section DistanceEstimate.

Import distance_estimator ProximityAlertSystem.

Lemma estimate_distance_cases bbox frame_shape :
  estimate_distance bbox frame_shape ∈ [1.0; 1.5; 2.5; 4.0; 6.0].
Proof.
  unfold estimate_distance.
  repeat match goal with
         | |- context [np_gt ?x ?c] => destruct (np_gt x c)
         end; set_solver.
Qed.

(** A box of the given width and no height, in a frame 100 pixels wide. *)
Lemma estimate_distance_attained v :
  v ∈ [1.0; 1.5; 2.5; 4.0; 6.0] ->
  exists bbox frame_shape, estimate_distance bbox frame_shape = v.
Proof.
  intros Hv.
  assert (forall width,
             estimate_distance (mkBBox 0 0 width 0) (mkFrameShape 75 100 3) = v ->
             exists bbox frame_shape, estimate_distance bbox frame_shape = v)
    as Hwide by eauto.
  repeat (apply elem_of_cons in Hv as [->|Hv]).
  - apply (Hwide 60). reflexivity.
  - apply (Hwide 40). reflexivity.
  - apply (Hwide 25). reflexivity.
  - apply (Hwide 15). reflexivity.
  - apply (Hwide 5). reflexivity.
  - by apply elem_of_nil in Hv.
Qed.

(** C10. [estimate_distance] returns one of the five values 1.0, 1.5, 2.5,
    4.0 and 6.0 (each of them for some box), hence never a value below 1.0,
    and a detection built by [detect] with that distance is never given
    the 'critical' level. *)
Theorem estimate_distance_never_critical bbox frame_shape :
  estimate_distance bbox frame_shape ∈ [1.0; 1.5; 2.5; 4.0; 6.0] /\
  (forall v, v ∈ [1.0; 1.5; 2.5; 4.0; 6.0] ->
             exists b s, estimate_distance b s = v) /\
  ~ estimate_distance bbox frame_shape < 1.0 /\
  forall class_name confidence,
    classify (ObjectDetector.detection_of_box class_name confidence
                bbox frame_shape) <> Some critical.
Proof.
  pose proof (estimate_distance_cases bbox frame_shape) as Hin.
  assert (~ estimate_distance bbox frame_shape < 1.0) as Hge.
  { repeat (apply elem_of_cons in Hin as [->|Hin]; [by intros ?|]).
    by apply elem_of_nil in Hin. }
  split; [apply estimate_distance_cases|].
  split; [apply estimate_distance_attained|].
  split; [exact Hge|].
  intros class_name confidence Hc. apply Hge.
  apply alert_level_critical. exact Hc.
Qed.

End DistanceEstimate.

(** ** Power modes *)

Section PowerModes.

Import BatteryOptimizer.

Lemma switch_mode_current new_mode self :
  current_mode (switch_mode new_mode self) = new_mode.
Proof.
  unfold switch_mode. case_bool_decide as Hne; simpl; [reflexivity|].
  destruct (decide (new_mode = current_mode self)); [congruence|contradiction].
Qed.

Lemma update_battery_status_mode level charging self :
  current_mode (update_battery_status level charging self)
  = spec_power_mode level charging.
Proof.
  unfold update_battery_status, spec_power_mode, thresholds; simpl.
  destruct charging; [apply switch_mode_current|].
  repeat match goal with
         | |- context [(?a <=? ?b)%Z] => destruct (Z.leb_spec a b)
         | |- context [(?a <? ?b)%Z] => destruct (Z.ltb_spec a b)
         end; simpl; try apply switch_mode_current; lia.
Qed.

Lemma spec_power_mode_monotone level level' :
  (level <= level')%Z ->
  (consumption (spec_power_mode level false)
   <= consumption (spec_power_mode level' false))%Z /\
  (fps_processing (POWER_PROFILES (spec_power_mode level false))
   <= fps_processing (POWER_PROFILES (spec_power_mode level' false)))%Z.
Proof.
  intros Hle. unfold spec_power_mode.
  repeat match goal with
         | |- context [(?a <=? ?b)%Z] => destruct (Z.leb_spec a b)
         | |- context [(?a <? ?b)%Z] => destruct (Z.ltb_spec a b)
         end; simpl; lia.
Qed.

(** C8. The mode after [update_battery_status] is a function of level and
    charging flag only: PERFORMANCE when charging, else ULTRA_SAVER up to
    10, POWER_SAVER up to 20, BALANCED up to 50, PERFORMANCE above; and off
    the charger a lower level never selects a mode that draws more (by the
    consumption table, and by the frame rate of its profile). *)
Theorem update_battery_status_lookup level level' charging self self' :
  (level <= level')%Z ->
  current_mode (update_battery_status level charging self)
  = spec_power_mode level charging /\
  (consumption (current_mode (update_battery_status level false self))
   <= consumption (current_mode (update_battery_status level' false self')))%Z /\
  (fps_processing
     (POWER_PROFILES (current_mode (update_battery_status level false self)))
   <= fps_processing
        (POWER_PROFILES
           (current_mode (update_battery_status level' false self'))))%Z.
Proof.
  intros Hle. rewrite !update_battery_status_mode.
  split; [reflexivity|]. by apply spec_power_mode_monotone.
Qed.

End PowerModes.

(** Levels 15 and 60 off the charger. *)
Lemma update_battery_status_lookup_witness :
  (15 <= 60)%Z /\
  BatteryOptimizer.current_mode
    (BatteryOptimizer.update_battery_status 15 false BatteryOptimizer.init)
  = POWER_SAVER /\
  BatteryOptimizer.current_mode
    (BatteryOptimizer.update_battery_status 60 false BatteryOptimizer.init)
  = PERFORMANCE.
Proof.
  assert (15 <= 60)%Z as Hle by lia.
  pose proof (update_battery_status_lookup 15 60 false
                BatteryOptimizer.init BatteryOptimizer.init Hle)
    as (Hmode & _ & _).
  split; [exact Hle|]. split; [exact Hmode|reflexivity].
Defined.

(** ** Descriptions: fallback and throttle *)

Section Descriptions.

Import LanguageProcessor.

Variable strip : string -> string.
Variable clean_description : string -> string.

Lemma string_length_app (s1 s2 : string) :
  String.length (s1 +:+ s2) = (String.length s1 + String.length s2)%nat.
Proof. induction s1 as [|c s1 IH]; simpl; [reflexivity|by rewrite IH]. Qed.

Lemma string_app_nonempty (s1 s2 : string) : s2 <> "" -> s1 +:+ s2 <> "".
Proof.
  intros Hne Heq. apply (f_equal String.length) in Heq.
  rewrite string_length_app in Heq. destruct s2; [done|simpl in Heq; lia].
Qed.

Lemma fallback_description_sentence det rest :
  fallback_description (det :: rest)
  = translate_class (class det) +:+ " " +:+ urgencia (distance det)
      +:+ direction_phrase (position det).
Proof.
  unfold fallback_description, direction_phrase.
  by destruct (String.eqb (position det) "frente").
Qed.

Lemma generate_description_failed post det rest :
  service_failed post ->
  generate_description strip clean_description post (det :: rest)
  = Returned (fallback_description (det :: rest)).
Proof.
  unfold generate_description, try_except.
  destruct post as [response|e]; simpl.
  - intros [Hstatus|[e Hjson]].
    + apply Z.eqb_neq in Hstatus. by rewrite Hstatus.
    + rewrite Hjson. destruct (status_code response =? 200)%Z; simpl;
        [by destruct e|reflexivity].
  - intros _. by destruct e.
Qed.

(** No exception leaves [generate_description], whatever the service does. *)
Lemma generate_description_returns post detections :
  exists text,
    generate_description strip clean_description post detections
    = Returned text.
Proof.
  destruct detections as [|det rest]; [by eexists|].
  unfold generate_description, try_except.
  destruct post as [response|e]; simpl.
  - destruct (status_code response =? 200)%Z; [|by eexists].
    destruct (json_response response) as [result|e]; simpl;
      [by eexists|destruct e; by eexists].
  - destruct e; by eexists.
Qed.

Lemma urgencia_cases dist :
  (dist < 1.5 -> urgencia dist = "muy cerca") /\
  (1.5 <= dist -> dist < 3 -> urgencia dist = "cerca") /\
  (3 <= dist -> urgencia dist = "").
Proof.
  unfold urgencia.
  case_Qltb; repeat split; intros; try reflexivity; exfalso; lra.
Qed.

(** C7, amended.  When the call to the description service raises, times
    out or answers with a status other than 200, [generate_description] on
    a non-empty list returns normally, and what it returns is the fallback
    sentence for the first detection: the (translated) class name, then
    "muy cerca" below 1.5 m, "cerca" from 1.5 m to below 3 m and no
    distance word at all from 3 m on, then the direction.  The sentence is
    never empty. *)
Theorem generate_description_fallback post det rest :
  service_failed post ->
  generate_description strip clean_description post (det :: rest)
  = Returned (translate_class (class det) +:+ " " +:+ urgencia (distance det)
                +:+ direction_phrase (position det)) /\
  translate_class (class det) +:+ " " +:+ urgencia (distance det)
    +:+ direction_phrase (position det) <> "" /\
  (distance det < 1.5 -> urgencia (distance det) = "muy cerca") /\
  (1.5 <= distance det -> distance det < 3 ->
   urgencia (distance det) = "cerca") /\
  (3 <= distance det -> urgencia (distance det) = "").
Proof.
  intros Hfail. split; [|split].
  - rewrite (generate_description_failed _ _ _ Hfail).
    by rewrite fallback_description_sentence.
  - by apply string_app_nonempty.
  - apply urgencia_cases.
Qed.

End Descriptions.

(** C7, as worded, fails: for a person four metres ahead and a service
    that times out, the sentence is "persona  frente a ti"; the place of the
    distance word is empty. *)
Lemma fallback_without_distance_word :
  LanguageProcessor.generate_description id id (Raised Timeout)
    [sample "person" 4.0 "frente"]
  = Returned "persona  frente a ti" /\
  ~ exists word,
      word <> "" /\
      LanguageProcessor.generate_description id id (Raised Timeout)
        [sample "person" 4.0 "frente"]
      = Returned ("persona" +:+ " " +:+ word +:+ " frente a ti").
Proof.
  split; [vm_compute; reflexivity|].
  intros (word & Hne & Heq).
  assert (LanguageProcessor.generate_description id id (Raised Timeout)
            [sample "person" 4.0 "frente"]
          = Returned "persona  frente a ti") as Hrun
      by (vm_compute; reflexivity).
  rewrite Hrun in Heq. injection Heq as Heq.
  apply (f_equal String.length) in Heq.
  rewrite !string_length_app in Heq. simpl in Heq.
  destruct word; [done|simpl in Heq; lia].
Qed.

(** A 503 reply with a dog one metre to the left. *)
Lemma generate_description_fallback_witness :
  service_failed (Returned (mkResponse 503 (Raised (OtherException "")))) /\
  LanguageProcessor.generate_description id id
    (Returned (mkResponse 503 (Raised (OtherException ""))))
    [sample "dog" 1.0 "izquierda"; sample "person" 3.0 "frente"]
  = Returned "perro muy cerca a tu izquierda".
Proof.
  assert (service_failed
            (Returned (mkResponse 503 (Raised (OtherException "")))))
    as Hfail by (simpl; left; lia).
  split; [exact Hfail|].
  exact (proj1 (generate_description_fallback id id _
                  (sample "dog" 1.0 "izquierda")
                  [sample "person" 3.0 "frente"] Hfail)).
Defined.

Section Throttle.

Import AdaptiveLanguageProcessor.

Variable strip : string -> string.
Variable clean_description : string -> string.

Lemma has_danger_iff detections :
  has_danger detections = true
  <-> exists d, d ∈ detections /\ distance d < 2.0.
Proof.
  unfold has_danger, danger_threshold. rewrite existsb_exists.
  split; intros (d & Hin & Hd); exists d.
  - split; [by apply list_elem_of_In|by apply Qltb_lt].
  - split; [by apply list_elem_of_In|by apply Qltb_lt].
Qed.

(** C6. With a detection closer than 2.0 m the description of the base
    class is produced at once and the timestamp becomes the current time.
    Without one, it is produced exactly when the time elapsed since the
    timestamp is at least the configured minimum interval (2.0 by default),
    the timestamp again becoming the current time; otherwise the call
    returns [None] and the timestamp stays as it was. *)
Theorem description_throttle cfg post current_time detections last :
  let danger := exists d, d ∈ detections /\ distance d < 2.0 in
  let elapsed := current_time - last in
  let result :=
    generate_description strip clean_description cfg post current_time
      detections last in
  (exists text,
      LanguageProcessor.generate_description strip clean_description
        post detections = Returned text /\
      (danger -> result = (Returned (Some text), current_time)) /\
      (~ danger -> min_time_between_descriptions cfg <= elapsed ->
       result = (Returned (Some text), current_time))) /\
  (~ danger -> elapsed < min_time_between_descriptions cfg ->
   result = (Returned None, last)) /\
  min_time_between_descriptions default_performance = 2.0.
Proof.
  intros danger elapsed result. subst danger elapsed result.
  unfold generate_description.
  destruct (generate_description_returns strip clean_description
              post detections) as [text Htext].
  split; [|split; [|reflexivity]].
  - exists text. split; [exact Htext|]. rewrite Htext. split.
    + intros Hd%has_danger_iff. by rewrite Hd.
    + intros Hnd Hel. destruct (has_danger detections); [reflexivity|].
      destruct (Qltb_spec (current_time - last)
                  (min_time_between_descriptions cfg)) as [Hlt|_];
        [|reflexivity].
      exfalso. exact (Qlt_not_le _ _ Hlt Hel).
  - intros Hnd Hel.
    destruct (has_danger detections) eqn:Hd.
    + exfalso. apply Hnd. by apply has_danger_iff.
    + by apply Qltb_lt in Hel as ->.
Qed.

End Throttle.

(** ** Proximity alerts: the cooldown *)

Section Cooldown.

Import ProximityAlertSystem.

Lemma spaced_app gap log1 log2 :
  spaced gap log1 -> spaced gap log2 ->
  (forall a b, a ∈ log1 -> b ∈ log2 -> alert_class a = alert_class b ->
               gap <= alert_time b - alert_time a) ->
  spaced gap (log1 ++ log2).
Proof.
  induction log1 as [|a log1 IH]; simpl; intros H1 H2 Hcross; [exact H2|].
  destruct H1 as [Hall H1]. split.
  - apply Forall_app. split; [exact Hall|].
    apply Forall_forall. intros b Hb. apply Hcross; [left|exact Hb].
  - apply IH; [exact H1|exact H2|].
    intros a' b Ha' Hb. apply Hcross; [by right|exact Hb].
Qed.

Lemma spaced_lookup gap log i j a b :
  spaced gap log -> (i < j)%nat ->
  log !! i = Some a -> log !! j = Some b ->
  alert_class a = alert_class b ->
  gap <= alert_time b - alert_time a.
Proof.
  revert i j. induction log as [|x log IH]; intros i j Hs Hij Hi Hj Hc.
  - by rewrite lookup_nil in Hi.
  - destruct Hs as [Hall Hs]. destruct j as [|j]; [lia|].
    destruct i as [|i]; simpl in Hi, Hj.
    + injection Hi as ->. rewrite Forall_forall in Hall.
      apply Hall; [|exact Hc]. by eapply list_elem_of_lookup_2.
    + apply (IH i j); [exact Hs|lia|exact Hi|exact Hj|exact Hc].
Qed.

(** One call: what the loop leaves in the dict and in the log. *)
Lemma check_loop_spec now detections :
  forall m m' log,
    check_loop now detections m = (m', log) ->
    Forall (fun a => alert_time a = now) log /\
    (forall a, a ∈ log -> m' !! alert_class a = Some now) /\
    (forall a v, a ∈ log -> m !! alert_class a = Some v ->
                 alert_cooldown <= now - v) /\
    (forall c, m' !! c = m !! c \/ m' !! c = Some now) /\
    spaced alert_cooldown log.
Proof.
  induction detections as [|det rest IH]; intros m m' log; simpl.
  - intros [= <- <-].
    split; [constructor|].
    split; [intros a Ha; by apply elem_of_nil in Ha|].
    split; [intros a v Ha; by apply elem_of_nil in Ha|].
    split; [intros c; by left|exact I].
  - destruct (alert_level (distance det)) as [lvl|]; [|apply IH].
    destruct (Qltb_spec (now - default 0 (m !! class det)) alert_cooldown)
      as [Hin|Hout]; [apply IH|].
    apply Qnot_lt_le in Hout.
    destruct (check_loop now rest (<[class det:=now]> m)) as [m1 log1] eqn:Hrest.
    intros [= <- <-].
    destruct (IH _ _ _ Hrest) as (Htime & Hset & Hgap & Hkeep & Hsp).
    assert (forall b, b ∈ log1 -> alert_class b <> class det) as Hother.
    { intros b Hb Hc.
      assert (alert_cooldown <= now - now) as Habs.
      { apply (Hgap b now Hb). rewrite Hc. apply lookup_insert_eq. }
      unfold alert_cooldown in Habs. lra. }
    split; [|split; [|split; [|split]]].
    + constructor; [reflexivity|exact Htime].
    + intros a [->|Ha]%elem_of_cons; [|by apply Hset].
      unfold alert_class; simpl.
      destruct (Hkeep (class det)) as [-> | ->]; [|reflexivity].
      apply lookup_insert_eq.
    + intros a v [->|Ha]%elem_of_cons.
      * unfold alert_class; simpl. intros Hv.
        rewrite Hv in Hout. exact Hout.
      * intros Hv. apply (Hgap a v Ha).
        rewrite lookup_insert_ne; [exact Hv|].
        intros Hc. by apply (Hother a Ha).
    + intros c. destruct (decide (class det = c)) as [<-|Hne].
      * right. destruct (Hkeep (class det)) as [-> | ->]; [|reflexivity].
        apply lookup_insert_eq.
      * destruct (Hkeep c) as [Hc|Hc]; [left|by right].
        rewrite Hc. by apply lookup_insert_ne.
    + simpl. split; [|exact Hsp].
      apply Forall_forall. intros b Hb Hc. exfalso.
      apply (Hother b Hb). by rewrite <- Hc.
Qed.

(** A sequence of calls whose clock readings never go back, started from a
    dict holding no time later than the first reading. *)
Lemma run_spec calls :
  forall m m' log,
    StronglySorted Qle (calls.*1) ->
    (forall c v t, m !! c = Some v -> t ∈ calls.*1 -> v <= t) ->
    run calls m = (m', log) ->
    (forall a v, a ∈ log -> m !! alert_class a = Some v ->
                 alert_cooldown <= alert_time a - v) /\
    spaced alert_cooldown log.
Proof.
  induction calls as [|[t dets] rest IH]; intros m m' log Hs Hm; simpl.
  - intros [= <- <-]. split; [|exact I].
    intros a v Ha. by apply elem_of_nil in Ha.
  - unfold check_proximity.
    destruct (check_loop t dets m) as [m1 log1] eqn:Hcall.
    destruct (run rest m1) as [m2 log2] eqn:Hrun.
    intros [= <- <-].
    destruct (check_loop_spec _ _ _ _ _ Hcall)
      as (Htime & Hset & Hgap & Hkeep & Hsp).
    simpl in Hs. apply StronglySorted_cons in Hs as [Hhd Hs].
    rewrite Forall_forall in Hhd. rewrite Forall_forall in Htime.
    assert (forall c v t', m1 !! c = Some v -> t' ∈ rest.*1 -> v <= t')
      as Hm1.
    { intros c v t' Hv Ht'. destruct (Hkeep c) as [Hc|Hc]; rewrite Hc in Hv.
      - apply (Hm c v t' Hv). simpl. by right.
      - injection Hv as <-. by apply Hhd. }
    destruct (IH _ _ _ Hs Hm1 Hrun) as (Hgap2 & Hsp2).
    assert (forall b, b ∈ log2 -> forall v,
               m1 !! alert_class b = Some v ->
               alert_cooldown <= alert_time b - v) as Hgap2'
        by (intros b Hb v; by apply Hgap2).
    split.
    + intros a v [Ha|Ha]%elem_of_app Hv.
      * rewrite (Htime a Ha). by apply (Hgap a).
      * destruct (Hkeep (alert_class a)) as [Hc|Hc].
        -- apply (Hgap2 a v Ha). by rewrite Hc.
        -- pose proof (Hgap2 a t Ha Hc) as Hlate.
           assert (v <= t) as Hvt
               by (apply (Hm (alert_class a) v t Hv); simpl; by left).
           lra.
    + apply spaced_app; [exact Hsp|exact Hsp2|].
      intros a b Ha Hb Hc. rewrite (Htime a Ha).
      apply (Hgap2 b t Hb). rewrite <- Hc. by apply Hset.
Qed.

(** C5. Over any sequence of calls with non-decreasing clock readings,
    started from a fresh alert system, two alerts for the same class are
    at least 3 seconds apart; and within a call no alert is emitted for a
    class whose recorded last alert is less than 3 seconds old. *)
Theorem alerts_respect_cooldown calls :
  Sorted Qle (calls.*1) ->
  (forall i j a b,
      (i < j)%nat ->
      (run calls init).2 !! i = Some a ->
      (run calls init).2 !! j = Some b ->
      alert_class a = alert_class b ->
      3.0 <= alert_time b - alert_time a) /\
  (forall t dets m a v,
      a ∈ (check_proximity t dets m).2 ->
      m !! alert_class a = Some v ->
      ~ t - v < 3.0).
Proof.
  intros Hs. apply (Sorted_StronglySorted Qle) in Hs. split.
  - destruct (run calls init) as [m' log] eqn:Hrun. simpl.
    assert (spaced alert_cooldown log) as Hsp.
    { eapply (run_spec calls init m' log); [exact Hs| |exact Hrun].
      intros c v t Hv. unfold init in Hv. by rewrite lookup_empty in Hv. }
    intros i j a b. by apply spaced_lookup.
  - intros t dets m a v Ha Hv. apply Qle_not_lt.
    unfold check_proximity in Ha.
    destruct (check_loop t dets m) as [m' log] eqn:Hcall. simpl in Ha.
    destruct (check_loop_spec _ _ _ _ _ Hcall) as (_ & _ & Hgap & _).
    by apply (Hgap a v).
Qed.

End Cooldown.

(** The alerts of [three_calls]: the second sighting of the person is
    suppressed, the third one is not. *)
Lemma three_calls_log :
  (fun a => (ProximityAlertSystem.alert_time a,
             ProximityAlertSystem.alert_class a))
    <$> (ProximityAlertSystem.run three_calls ProximityAlertSystem.init).2
  = [(1000, "person"); (1001, "dog"); (1004, "person")].
Proof. vm_compute. reflexivity. Qed.

(** The two alerts for the person in [three_calls] are four seconds apart. *)
Lemma alerts_respect_cooldown_witness :
  Sorted Qle (three_calls.*1) /\
  3.0 <= 1004 - 1000.
Proof.
  assert (Sorted Qle (three_calls.*1)) as Hs
      by (repeat constructor; discriminate).
  split; [exact Hs|].
  destruct (alerts_respect_cooldown three_calls Hs) as [Hgap _].
  exact (Hgap 0%nat 2%nat
           (ProximityAlertSystem.mkAlert 1000 (sample "person" 1.5 "frente")
              ProximityAlertSystem.warning)
           (ProximityAlertSystem.mkAlert 1004 (sample "person" 1.5 "frente")
              ProximityAlertSystem.warning)
           ltac:(lia) ltac:(vm_compute; reflexivity)
           ltac:(vm_compute; reflexivity) eq_refl).
Defined.

(** ** The frame queue *)

Section FrameQueue.

Import CameraHandler.

Variable Frame : Type.
Variable cfg : CameraConfig.
Hypothesis bounded : (0 < frame_buffer_size cfg)%Z.

Implicit Types s : State Frame.

Lemma init_within_bound : within_bound cfg (init (Frame:=Frame) cfg).
Proof.
  unfold within_bound, init, qsize; simpl.
  split; [reflexivity|]. split; [lia|discriminate].
Qed.

Lemma full_iff s :
  maxsize (frame_queue s) = frame_buffer_size cfg ->
  full (frame_queue s) = true
  <-> (frame_buffer_size cfg <= qsize (frame_queue s))%Z.
Proof.
  intros Hmax. unfold full. rewrite Hmax, andb_true_iff.
  rewrite Z.ltb_lt, Z.leb_le. split; [by intros [_ ?]|by split].
Qed.

Lemma step_within_bound a s s' :
  within_bound cfg s -> step a s = Some s' -> within_bound cfg s'.
Proof.
  intros (Hmax & Hle & Hhold). unfold step.
  destruct a as [processed_frame| |].
  - destruct (capture s) as [|held] eqn:Hcap; [|discriminate].
    destruct (full (frame_queue s)) eqn:Hfull; simpl; intros [= <-].
    + split; [exact Hmax|]. split; [exact Hle|].
      intros f Hf. rewrite Hcap in Hf. discriminate.
    + unfold within_bound; simpl. split; [exact Hmax|]. split; [exact Hle|].
      intros _ _. apply Z.lt_nge. intros Hge.
      apply (full_iff s Hmax) in Hge. congruence.
  - destruct (capture s) as [|held] eqn:Hcap; [discriminate|].
    unfold put. pose proof (Hhold held eq_refl) as Hlt.
    destruct (full (frame_queue s)) eqn:Hfull; simpl; [discriminate|].
    intros [= <-]. unfold within_bound, qsize in *; simpl.
    split; [exact Hmax|]. rewrite length_app; simpl.
    split; [lia|discriminate].
  - assert (step Read s = Some s' -> within_bound cfg s') as Hread.
    { unfold step.
      destruct (empty (frame_queue s)).
      - assert (Some s = Some s' -> within_bound cfg s') as Hsame
            by (intros [= <-]; by repeat split).
        by destruct (capture s).
      - unfold get.
        destruct (items (frame_queue s)) as [|item rest] eqn:Hi; simpl;
          [by destruct (capture s)|].
        assert (forall c, c = capture s ->
                  within_bound cfg
                    {| frame_queue := {| maxsize := maxsize (frame_queue s);
                                         items := rest |};
                       capture := c |}) as Hpop.
        { intros c ->. unfold within_bound, qsize in *; simpl.
          rewrite Hi in Hle; simpl in Hle.
          split; [exact Hmax|]. split; [lia|].
          intros f Hf. specialize (Hhold f Hf).
          rewrite Hi in Hhold; simpl in Hhold. lia. }
        destruct (capture s) eqn:Hcap; intros [= <-]; by apply Hpop. }
    exact Hread.
Qed.

Lemma run_within_bound actions :
  forall s s',
    within_bound cfg s -> run actions s = Some s' -> within_bound cfg s'.
Proof.
  induction actions as [|a rest IH]; intros s s' Hs; simpl.
  - by intros [= <-].
  - destruct (step a s) as [s1|] eqn:Hstep; simpl; [|discriminate].
    apply IH. by eapply step_within_bound.
Qed.

(** C9.  The frame queue being bounded (a positive [frame_buffer_size]):
    in every state the capture and consumer threads can reach, the queue
    holds at most [frame_buffer_size] frames; the capture thread gets
    to [put] only after finding the queue not full, and that [put] appends
    the frame without blocking; when it finds the queue full, the new frame
    is dropped and the state, queue included, is unchanged; and no step of
    the capture thread removes a frame. *)
Theorem capture_loop_drops_newest actions s :
  run actions (init cfg) = Some s ->
  (qsize (frame_queue s) <= frame_buffer_size cfg)%Z /\
  (forall processed_frame,
      capture s = Holding processed_frame ->
      full (frame_queue s) = false /\
      exists s', step Put s = Some s' /\
                 frames s' = frames s ++ [processed_frame]) /\
  (forall processed_frame,
      capture s = Idle ->
      full (frame_queue s) = true ->
      step (Test processed_frame) s = Some s) /\
  (forall a s',
      a <> Read -> step a s = Some s' ->
      frames s `prefix_of` frames s').
Proof.
  intros Hrun.
  destruct (run_within_bound _ _ _ init_within_bound Hrun)
    as (Hmax & Hle & Hhold).
  split; [exact Hle|]. split; [|split].
  - intros processed_frame Hcap.
    assert (full (frame_queue s) = false) as Hfull.
    { destruct (full (frame_queue s)) eqn:Hfull; [|reflexivity].
      apply (full_iff s Hmax) in Hfull.
      pose proof (Hhold _ Hcap). lia. }
    split; [exact Hfull|].
    unfold step, put. rewrite Hcap, Hfull. simpl. by eexists.
  - intros processed_frame Hcap Hfull.
    unfold step. by rewrite Hcap, Hfull.
  - intros a s' Hne. unfold step, frames.
    destruct a as [processed_frame| |], (capture s) as [|held];
      try discriminate; try contradiction.
    + destruct (full (frame_queue s)); simpl; by intros [= <-].
    + unfold put. destruct (full (frame_queue s)); simpl;
        [discriminate|]. intros [= <-]. simpl. by apply prefix_app_r.
Qed.

End FrameQueue.

(** Three frames into a queue of two: the third one is dropped. *)
Lemma capture_three_run :
  CameraHandler.run capture_three (CameraHandler.init small_camera)
  = Some (CameraHandler.mkState (CameraHandler.mkQueue 2 [1; 2]%nat)
            CameraHandler.Idle).
Proof. reflexivity. Qed.

(** The run [capture_three] on a queue of two frames. *)
Lemma capture_loop_drops_newest_witness :
  (0 < frame_buffer_size small_camera)%Z /\
  CameraHandler.run capture_three (CameraHandler.init small_camera)
  = Some (CameraHandler.mkState (CameraHandler.mkQueue 2 [1; 2]%nat)
            CameraHandler.Idle) /\
  (CameraHandler.qsize (CameraHandler.mkQueue 2 [1; 2]%nat)
   <= frame_buffer_size small_camera)%Z.
Proof.
  assert (0 < frame_buffer_size small_camera)%Z as Hpos by (simpl; lia).
  split; [exact Hpos|]. split; [exact capture_three_run|].
  exact (proj1 (capture_loop_drops_newest nat small_camera Hpos
                  capture_three _ capture_three_run)).
Defined.

(** * Further properties of the code *)

(** ** Calibrated distance *)

Section CalibratedDistance.

Import distance_estimator.

Lemma clip_bounds x lo hi : lo <= hi -> lo <= clip x lo hi /\ clip x lo hi <= hi.
Proof.
  intros Hle. unfold clip.
  destruct (Qltb_spec x lo) as [Hx|Hx]; case_Qltb; split; lra.
Qed.

Lemma clip_monotone x y lo hi : x <= y -> clip x lo hi <= clip y lo hi.
Proof.
  intros Hle. unfold clip.
  destruct (Qltb_spec x lo) as [Hx|Hx], (Qltb_spec y lo) as [Hy|Hy];
    case_Qltb; lra.
Qed.

Lemma KNOWN_WIDTHS_positive object_class known_width :
  KNOWN_WIDTHS !! object_class = Some known_width -> 0 < known_width.
Proof.
  unfold KNOWN_WIDTHS. intros Hin%elem_of_list_to_map_2.
  repeat (apply elem_of_cons in Hin as [[= -> ->]|Hin]; [reflexivity|]).
  by apply elem_of_nil in Hin.
Qed.

(** X1. Whatever the box, the class and the frame,
    [estimate_distance_calibrated] answers with a distance between 0.5 m
    and 20 m. *)
Theorem estimate_distance_calibrated_range bbox object_class frame_shape :
  0.5 <= estimate_distance_calibrated bbox object_class frame_shape /\
  estimate_distance_calibrated bbox object_class frame_shape <= 20.0.
Proof.
  unfold estimate_distance_calibrated.
  destruct (KNOWN_WIDTHS !! object_class) as [known_width|].
  - destruct (Qltb (x2 bbox - x1 bbox) 1); [split; discriminate|].
    apply clip_bounds. discriminate.
  - pose proof (estimate_distance_cases bbox frame_shape) as Hin.
    repeat (apply elem_of_cons in Hin as [->|Hin]; [split; discriminate|]).
    by apply elem_of_nil in Hin.
Qed.

Lemma Qdiv_le_compat_den a p q : 0 <= a -> 0 < p -> p <= q -> a / q <= a / p.
Proof.
  intros Ha Hp Hpq.
  assert (0 < q) as Hq by lra.
  apply Qle_shift_div_l; [exact Hp|].
  assert (a / q * p == a * (p / q)) as -> by (field; lra).
  assert (p / q <= 1) as Hone by (apply Qle_shift_div_r; lra).
  nra.
Qed.

(** X2. For a class with a known width, a wider box is never estimated
    farther away, as long as both boxes are at least one pixel wide. *)
Theorem estimate_distance_calibrated_antitone
    bbox bbox' object_class frame_shape frame_shape' :
  is_Some (KNOWN_WIDTHS !! object_class) ->
  1 <= box_width bbox ->
  box_width bbox <= box_width bbox' ->
  estimate_distance_calibrated bbox' object_class frame_shape'
  <= estimate_distance_calibrated bbox object_class frame_shape.
Proof.
  unfold box_width, estimate_distance_calibrated.
  intros [known_width Hk] Hone Hle. rewrite Hk.
  pose proof (KNOWN_WIDTHS_positive _ _ Hk) as Hpos.
  destruct (Qltb_spec (x2 bbox - x1 bbox) 1) as [Hlt|_]; [exfalso; lra|].
  destruct (Qltb_spec (x2 bbox' - x1 bbox') 1) as [Hlt|_]; [exfalso; lra|].
  apply clip_monotone. apply Qdiv_le_compat_den; [|lra|exact Hle].
  unfold FOCAL_LENGTH. nra.
Qed.

End CalibratedDistance.

Lemma estimate_distance_calibrated_antitone_witness :
  distance_estimator.estimate_distance_calibrated
    (mkBBox 0 0 300 400) "person" vga
  <= distance_estimator.estimate_distance_calibrated person_box "person" vga.
Proof.
  apply estimate_distance_calibrated_antitone;
    [by eexists|discriminate|discriminate].
Defined.

(** ** Horizontal position *)

Section Positions.

Import ObjectDetector.

(** X4. For a frame width that is not negative, moving a box to the right
    never moves its bucket to the left (izquierda, frente, derecha in this
    order); and the horizontal half of [get_relative_position] is the
    bucket [_get_position] computes. *)
Theorem get_position_monotone bbox bbox' frame_width :
  (0 <= frame_width)%Z ->
  x1 bbox + x2 bbox <= x1 bbox' + x2 bbox' ->
  (bucket_rank (get_position bbox frame_width)
   <= bucket_rank (get_position bbox' frame_width))%Z /\
  (distance_estimator.get_relative_position bbox frame_width).1
  = get_position bbox frame_width.
Proof.
  intros Hw Hle. split; [|reflexivity].
  assert (0 <= inject_Z frame_width) as Hw'.
  { change 0 with (inject_Z 0). by rewrite <- Zle_Qle. }
  unfold get_position.
  assert ((x1 bbox + x2 bbox) / 2 <= (x1 bbox' + x2 bbox') / 2) as Hc.
  { apply Qmult_le_compat_r; [exact Hle|discriminate]. }
  case_Qltb; try (vm_compute; discriminate); exfalso; lra.
Qed.

End Positions.

Lemma get_position_monotone_witness :
  (bucket_rank (ObjectDetector.get_position (mkBBox 0 0 100 100) 640)
   <= bucket_rank (ObjectDetector.get_position person_box 640))%Z.
Proof.
  apply (get_position_monotone (mkBBox 0 0 100 100) person_box 640);
    [lia|discriminate].
Defined.

(** ** [detect] and what it feeds *)

Section Detect.

Import ObjectDetector.

Lemma insert_by_distance_perm det sorted :
  insert_by_distance det sorted ≡ₚ det :: sorted.
Proof.
  induction sorted as [|other rest IH]; simpl; [reflexivity|].
  destruct (Qltb (distance other) (distance det)); [|reflexivity].
  rewrite IH. apply Permutation_swap.
Qed.

Lemma sort_by_distance_perm detections :
  sort_by_distance detections ≡ₚ detections.
Proof.
  induction detections as [|det rest IH]; simpl; [reflexivity|].
  by rewrite insert_by_distance_perm, IH.
Qed.

Lemma insert_by_distance_sorted det sorted :
  nearest_first sorted -> nearest_first (insert_by_distance det sorted).
Proof.
  unfold nearest_first.
  induction sorted as [|other rest IH]; simpl; intros Hs.
  - repeat constructor.
  - apply StronglySorted_cons in Hs as [Hhd Hs].
    destruct (Qltb_spec (distance other) (distance det)) as [Hlt|Hge].
    + apply StronglySorted_cons. split; [|by apply IH].
      rewrite insert_by_distance_perm. constructor; [lra|exact Hhd].
    + apply Qnot_lt_le in Hge.
      apply StronglySorted_cons. split.
      * constructor; [exact Hge|].
        eapply Forall_impl; [exact Hhd|]. simpl. intros x Hx. lra.
      * by apply StronglySorted_cons.
Qed.

Lemma sort_by_distance_sorted detections :
  nearest_first (sort_by_distance detections).
Proof.
  induction detections as [|det rest IH]; simpl; [constructor|].
  by apply insert_by_distance_sorted.
Qed.

Lemma insert_by_distance_filter v det sorted :
  filter (fun d => Qeq_bool (distance d) v) (insert_by_distance det sorted)
  = filter (fun d => Qeq_bool (distance d) v) (det :: sorted).
Proof.
  induction sorted as [|other rest IH]; simpl; [reflexivity|].
  destruct (Qltb_spec (distance other) (distance det)) as [Hlt|_];
    [|reflexivity].
  rewrite (filter_cons _ other), IH, !filter_cons.
  destruct (decide (Qeq_bool (distance det) v)) as [Hd|Hd];
    [|reflexivity].
  destruct (decide (Qeq_bool (distance other) v)) as [Ho|Ho];
    [|reflexivity].
  apply Is_true_true, Qeq_bool_iff in Hd, Ho. exfalso. lra.
Qed.

(** X6. [detect] returns the detections built from the boxes, rearranged
    (none lost, none added) into ascending distance, and detections at the
    same distance keep the order the model gave them. *)
Theorem detect_sorted_stable boxes frame_shape :
  let built :=
    map (fun box => detection_of_box (box_class box) (box_conf box)
                      (box_xyxy box) frame_shape) boxes in
  detect boxes frame_shape ≡ₚ built /\
  nearest_first (detect boxes frame_shape) /\
  forall v,
    filter (fun d => Qeq_bool (distance d) v) (detect boxes frame_shape)
    = filter (fun d => Qeq_bool (distance d) v) built.
Proof.
  intros built. unfold detect. fold built.
  split; [apply sort_by_distance_perm|].
  split; [apply sort_by_distance_sorted|].
  intros v. induction built as [|det rest IH]; simpl; [reflexivity|].
  rewrite insert_by_distance_filter, !filter_cons, IH. reflexivity.
Qed.

Variable cfg : YOLOConfig.

Lemma detect_distance boxes frame_shape det :
  det ∈ detect boxes frame_shape ->
  distance det ∈ [1.0; 1.5; 2.5; 4.0; 6.0].
Proof.
  unfold detect. rewrite sort_by_distance_perm.
  intros (box & -> & _)%list_elem_of_fmap. simpl.
  apply estimate_distance_cases.
Qed.

(** X7. What the pipeline [detect] then [filter_relevant] returns is at
    most five detections in ascending distance, each estimated at 1.0,
    1.5, 2.5 or 4.0 m, and at 4.0 m only for a priority class: an object
    estimated at 6.0 m is never reported, nor is an object at 4.0 m that
    is merely in front. *)
Theorem detect_filter_relevant boxes frame_shape :
  let relevant := filter_relevant cfg (detect boxes frame_shape) in
  (length relevant <= 5)%nat /\
  nearest_first relevant /\
  forall det,
    det ∈ relevant ->
    distance det ∈ [1.0; 1.5; 2.5; 4.0] /\
    (distance det = 4.0 -> class det ∈ priority_classes cfg).
Proof.
  intros relevant. subst relevant.
  destruct (filter_relevant_bounded_ordered cfg (detect boxes frame_shape))
    as [Hlen Hord].
  destruct (Hord (proj1 (proj2 (detect_sorted_stable boxes frame_shape))))
    as (_ & _ & Hsorted).
  split; [exact Hlen|]. split; [exact Hsorted|].
  intros det. rewrite filter_relevant_omap.
  intros Hin. eapply elem_of_sublist in Hin; [|apply sublist_take].
  apply list_elem_of_omap in Hin as (inp & Hinp & Hkept).
  pose proof (detect_distance _ _ _ Hinp) as Hd.
  unfold kept in Hkept.
  destruct (relevance cfg inp) as [p|] eqn:Hrel; [|discriminate].
  injection Hkept as <-. simpl.
  unfold relevance in Hrel.
  repeat (apply elem_of_cons in Hd as [Hd|Hd]); try by apply elem_of_nil in Hd.
  - rewrite Hd. split; [in_list|discriminate].
  - rewrite Hd. split; [in_list|discriminate].
  - rewrite Hd. split; [in_list|discriminate].
  - rewrite Hd in *. split; [in_list|]. intros _.
    change (Qltb 4.0 2.0) with false in Hrel.
    change (Qltb 4.0 4.0) with false in Hrel.
    rewrite andb_false_r in Hrel.
    case_bool_decide; [assumption|discriminate].
  - rewrite Hd in Hrel.
    change (Qltb 6.0 2.0) with false in Hrel.
    change (Qltb 6.0 4.0) with false in Hrel.
    change (Qltb 6.0 5.0) with false in Hrel.
    rewrite andb_false_r in Hrel.
    by destruct (bool_decide (class inp ∈ priority_classes cfg)).
Qed.

End Detect.

(** ** Alerts behind the filter *)

Section FilteredAlerts.

Import ObjectDetector ProximityAlertSystem.

Lemma check_loop_members now detections :
  forall m m' log,
    check_loop now detections m = (m', log) ->
    alert_det <$> log `sublist_of` detections /\
    Forall (fun a => alert_level (distance (alert_det a))
                     = Some (alert_lvl a)) log.
Proof.
  induction detections as [|det rest IH]; intros m m' log; simpl.
  - intros [= <- <-]. split; constructor.
  - destruct (alert_level (distance det)) as [lvl|] eqn:Hlvl.
    + destruct (Qltb (now - default 0 (m !! class det)) alert_cooldown).
      * intros [Hsub Hall]%IH. split; [by apply sublist_cons|exact Hall].
      * destruct (check_loop now rest (<[class det:=now]> m))
          as [m1 log1] eqn:Hrest.
        intros [= <- <-]. destruct (IH _ _ _ Hrest) as [Hsub Hall].
        split; [by apply sublist_skip|by constructor].
    + intros [Hsub Hall]%IH. split; [by apply sublist_cons|exact Hall].
Qed.

Lemma spaced_same_time_NoDup now log :
  Forall (fun a => alert_time a = now) log ->
  spaced alert_cooldown log ->
  NoDup (alert_class <$> log).
Proof.
  induction log as [|a log IH]; simpl; intros Htime Hsp; [constructor|].
  apply Forall_cons in Htime as [Ha Htime]. destruct Hsp as [Hall Hsp].
  constructor; [|by apply IH].
  intros (b & Hc & Hb)%list_elem_of_fmap.
  rewrite Forall_forall in Hall. rewrite Forall_forall in Htime.
  pose proof (Hall b Hb Hc) as Hgap.
  rewrite Ha, (Htime b Hb) in Hgap. unfold alert_cooldown in Hgap. lra.
Qed.

Variable cfg : YOLOConfig.

(** X8. One call of [check_proximity] never alerts twice for the same
    class, whatever the clock and the dict.  Run on the output of
    [filter_relevant], it emits at most five alerts, each for a detection
    closer than 2.0 m that the filter marked 'alta'. *)
Theorem alerts_behind_filter now detections m :
  NoDup (alert_class <$> (check_proximity now detections m).2) /\
  let log :=
    (check_proximity now (filter_relevant cfg detections) m).2 in
  (length log <= 5)%nat /\
  forall a, a ∈ log ->
            priority (alert_det a) = Some "alta" /\
            distance (alert_det a) < 2.0.
Proof.
  unfold check_proximity. split.
  - destruct (check_loop now detections m) as [m' log] eqn:Hcall.
    destruct (check_loop_spec _ _ _ _ _ Hcall) as (Htime & _ & _ & _ & Hsp).
    simpl. by eapply spaced_same_time_NoDup.
  - destruct (check_loop now (filter_relevant cfg detections) m)
      as [m' log] eqn:Hcall. simpl.
    destruct (check_loop_members _ _ _ _ _ Hcall) as [Hsub Hall].
    split.
    + apply sublist_length in Hsub. rewrite length_fmap in Hsub.
      pose proof (proj1 (filter_relevant_bounded_ordered cfg detections)).
      lia.
    + intros a Ha. rewrite Forall_forall in Hall.
      assert (distance (alert_det a) < 2.0) as Hclose.
      { apply Qnot_le_lt. intros Hfar%alert_level_none.
        rewrite (Hall a Ha) in Hfar. discriminate. }
      split; [|exact Hclose].
      assert (alert_det a ∈ filter_relevant cfg detections) as Hin.
      { eapply elem_of_sublist; [|exact Hsub].
        apply list_elem_of_fmap. by exists a. }
      rewrite filter_relevant_omap in Hin.
      eapply elem_of_sublist in Hin; [|apply sublist_take].
      apply list_elem_of_omap in Hin as (inp & _ & Hkept).
      pose proof (kept_distance _ _ _ Hkept) as Hd.
      rewrite (kept_close cfg inp) in Hkept by (rewrite <- Hd; exact Hclose).
      by injection Hkept as <-.
Qed.

(** X9. With distances from the basic estimator, that is in the pipeline
    [detect], [filter_relevant], [check_proximity], every alert is a
    'warning': the critical alert and its spoken "Cuidado" never happen,
    and the alerts leave the audio queue as it is. *)
Theorem pipeline_alerts_are_warnings boxes frame_shape now m stamped audio :
  let log :=
    (check_proximity now
       (filter_relevant cfg (detect boxes frame_shape)) m).2 in
  Forall (fun a => alert_lvl a = warning) log /\
  (stamped.*1 = log -> AudioFeedback.announce stamped audio = audio).
Proof.
  intros log.
  assert (Forall (fun a => alert_lvl a = warning) log) as Hwarn.
  { subst log. unfold check_proximity.
    destruct (check_loop now (filter_relevant cfg (detect boxes frame_shape)) m)
      as [m' log] eqn:Hcall. simpl.
    destruct (check_loop_members _ _ _ _ _ Hcall) as [Hsub Hall].
    apply Forall_forall. intros a Ha. rewrite Forall_forall in Hall.
    pose proof (Hall a Ha) as Hlvl.
    destruct (alert_lvl a); [|reflexivity]. exfalso.
    apply alert_level_critical in Hlvl.
    assert (alert_det a ∈ filter_relevant cfg (detect boxes frame_shape))
      as Hin.
    { eapply elem_of_sublist; [|exact Hsub].
      apply list_elem_of_fmap. by exists a. }
    destruct (detect_filter_relevant cfg boxes frame_shape)
      as (_ & _ & Hdist).
    destruct (Hdist _ Hin) as [Hd _].
    repeat (apply elem_of_cons in Hd as [Hd|Hd];
            [rewrite Hd in Hlvl; discriminate|]).
    by apply elem_of_nil in Hd. }
  split; [exact Hwarn|].
  intros Hlog. rewrite <- Hlog in Hwarn. clear Hlog. revert audio.
  induction stamped as [|[a stamp] rest IH]; intros audio; [reflexivity|].
  apply Forall_cons in Hwarn as [Ha Hwarn]. simpl in Ha.
  unfold AudioFeedback.announce in *. simpl.
  unfold AudioFeedback.emit at 2. rewrite Ha. simpl. by apply IH.
Qed.

End FilteredAlerts.

(** ** The audio queue *)

Section Audio.

Import AudioFeedback.

Lemma emit_critical_or_not entry (self : t) :
  enabled self = true ->
  emit entry.1 entry.2 self
  = if is_critical entry
    then with_queue [warning_message entry] self
    else self.
Proof.
  intros Hon. destruct entry as [a stamp].
  unfold emit, is_critical, warning_message; simpl.
  destruct (ProximityAlertSystem.alert_lvl a); simpl; [|reflexivity].
  unfold speak. by rewrite Hon.
Qed.

Lemma play_snoc events event (self : t) :
  play (events ++ [event]) self = play_event event (play events self).
Proof. unfold play. by rewrite foldl_app. Qed.

Lemma play_event_enabled event (self : t) :
  enabled (play_event event self) = enabled self.
Proof.
  destruct event as [alert now|say_raises]; simpl.
  - unfold emit. destruct (ProximityAlertSystem.alert_lvl alert); simpl;
      [|reflexivity].
    unfold speak.
    match goal with
    | |- context [if ?b then self else _] => by destruct b
    end.
  - unfold audio_loop_step.
    destruct (audio_queue self) as [|message rest]; [reflexivity|]. simpl.
    destruct (enabled self) eqn:Hon, (engine self), say_raises; simpl;
      first [exact Hon|reflexivity].
Qed.

Lemma play_enabled events (self : t) :
  enabled (play events self) = enabled self.
Proof.
  induction events as [|event events IH] using rev_ind; [reflexivity|].
  by rewrite play_snoc, play_event_enabled.
Qed.

Lemma worker_takes_from_the_head say_raises (self : t) :
  audio_queue (play_event (Worker say_raises) self)
    `suffix_of` audio_queue self.
Proof.
  simpl. unfold audio_loop_step.
  destruct (audio_queue self) as [|message rest] eqn:Hq;
    [by rewrite Hq|]. simpl.
  destruct (enabled self) eqn:Hon, (engine self), say_raises; simpl;
    by apply suffix_cons_r.
Qed.

(** X10. While the audio is switched on, and however the worker thread
    runs in between, after the alerts of a call the queue holds nothing
    but, at most, the "Cuidado" of the last critical alert: whatever was
    pending before it, earlier warnings included, is gone (each such
    [speak] clears the queue), and the worker may already have taken that
    last one too.  Without a critical alert nothing is added, the queue is
    what the worker left of it. *)
Theorem alerts_leave_last_critical events (self : t) :
  enabled self = true ->
  audio_queue (play events self)
    `suffix_of`
    match last (filter is_critical (alerted events)) with
    | Some entry => [warning_message entry]
    | None => audio_queue self
    end.
Proof.
  intros Hon. induction events as [|event events IH] using rev_ind;
    [reflexivity|].
  rewrite play_snoc. unfold alerted in *. rewrite omap_app.
  destruct event as [alert now|say_raises].
  - csimpl. rewrite filter_app, filter_cons, filter_nil.
    change (emit alert now (play events self))
      with (emit (alert, now).1 (alert, now).2 (play events self)).
    rewrite emit_critical_or_not by (by rewrite play_enabled).
    destruct (is_critical (alert, now)) eqn:Hc.
    + rewrite decide_True by exact I. by rewrite last_snoc.
    + rewrite decide_False by (intros []). by rewrite app_nil_r.
  - csimpl. rewrite app_nil_r.
    etrans; [apply worker_takes_from_the_head|exact IH].
Qed.

Lemma audio_loop_drain fuel (self : t) :
  (length (audio_queue self) <= fuel)%nat ->
  audio_queue (audio_loop fuel self).1 = [] /\
  (audio_loop fuel self).2
  = if enabled self && engine self
    then text <$> audio_queue self else [].
Proof.
  revert self. induction fuel as [|fuel IH]; intros self Hlen.
  - destruct (audio_queue self) eqn:Hq; [|simpl in Hlen; lia].
    simpl. rewrite Hq. by destruct (enabled self && engine self).
  - simpl. unfold audio_loop_step.
    destruct (audio_queue self) as [|message rest] eqn:Hq.
    + simpl. rewrite Hq. by destruct (enabled self && engine self).
    + simpl in Hlen. simpl.
      destruct (enabled self) eqn:Hon, (engine self) eqn:Heng; simpl;
        match goal with
        | |- context [audio_loop fuel ?s] =>
            destruct (IH s) as [Hempty Hsaid]; [simpl; lia|];
            destruct (audio_loop fuel s) as [final said]
        end;
        simpl in *; rewrite ?Hon, ?Heng in Hsaid; simpl in Hsaid;
        (split; [exact Hempty|by rewrite Hsaid]).
Qed.

(** X11. Run until the queue is empty with an engine that does not fail,
    [_audio_loop] speaks the pending messages in the order they were
    queued, each once; when the audio is switched off, or no engine could
    be set up, it takes them off the queue all the same and speaks none of
    them. *)
Theorem audio_loop_speaks_in_order fuel (self : t) :
  (length (audio_queue self) <= fuel)%nat ->
  audio_queue (audio_loop fuel self).1 = [] /\
  (enabled self = true -> engine self = true ->
   (audio_loop fuel self).2 = text <$> audio_queue self) /\
  (enabled self = false \/ engine self = false ->
   (audio_loop fuel self).2 = []).
Proof.
  intros Hlen. destruct (audio_loop_drain fuel self Hlen) as [Hempty Hsaid].
  split; [exact Hempty|]. rewrite Hsaid. split.
  - by intros -> ->.
  - intros [-> | ->]; [reflexivity|by destruct (enabled self)].
Qed.

End Audio.

(** Two critical alerts with the worker in between: only the second
    "Cuidado" is left. *)
Lemma alerts_leave_last_critical_witness :
  AudioFeedback.enabled busy_audio = true /\
  AudioFeedback.audio_queue (AudioFeedback.play two_critical busy_audio)
    `suffix_of`
    [AudioFeedback.mkMessage "Cuidado, car muy cerca" "alta" 1000.7].
Proof.
  split; [reflexivity|].
  exact (alerts_leave_last_critical two_critical busy_audio eq_refl).
Defined.

Lemma audio_loop_speaks_in_order_witness :
  (length (AudioFeedback.audio_queue busy_audio) <= 2)%nat /\
  (AudioFeedback.audio_loop 2 busy_audio).2
  = ["persona cerca frente a ti"; "silla cerca a tu derecha"].
Proof.
  assert (length (AudioFeedback.audio_queue busy_audio) <= 2)%nat as Hlen
      by (simpl; lia).
  split; [exact Hlen|].
  exact (proj1 (proj2 (audio_loop_speaks_in_order 2 busy_audio Hlen))
           eq_refl eq_refl).
Defined.

(** ** Frame skipping and the language model under low battery *)

Section Battery.

Import BatteryOptimizer.

Lemma multiples_of_30_step n :
  ((n + 1) / 30 - n / 30 = if ((n + 1) mod 30 =? 0) then 1 else 0)%Z.
Proof.
  destruct (Z.eqb_spec ((n + 1) mod 30) 0) as [Hz|Hnz];
    Z.to_euclidean_division_equations; lia.
Qed.

(** X14. In ULTRA_SAVER mode [should_process_frame] lets through exactly
    the calls at which the frame counter reaches a multiple of 30, one
    frame in thirty, and counts every other call as skipped; in the three
    other modes it lets every frame through and counts none as skipped.
    Either way the frame counter advances by one per call. *)
Theorem should_process_frame_one_in_thirty n self stats :
  let '(processed, stats') := process_frames n self stats in
  total_frames stats' = (total_frames stats + Z.of_nat n)%Z /\
  if bool_decide (current_mode self = ULTRA_SAVER) then
    processed = ((total_frames stats + Z.of_nat n) / 30
                 - total_frames stats / 30)%Z /\
    frames_skipped stats'
    = (frames_skipped stats + Z.of_nat n - processed)%Z
  else
    processed = Z.of_nat n /\
    frames_skipped stats' = frames_skipped stats.
Proof.
  destruct (bool_decide (current_mode self = ULTRA_SAVER)) eqn:Hmode.
  - revert stats. induction n as [|n IH]; intros stats.
    + simpl. split; [lia|]. rewrite Z.add_0_r. split; lia.
    + cbn [process_frames]. unfold should_process_frame at 1.
      rewrite Hmode. simpl.
      pose proof (multiples_of_30_step (total_frames stats)) as Hstep.
      destruct ((total_frames stats + 1) mod 30 =? 0)%Z; simpl;
        match goal with
        | |- context [process_frames n self ?st] =>
            specialize (IH st); destruct (process_frames n self st)
              as [count final]
        end;
        simpl in IH; destruct IH as (Htotal & Hcount & Hskip);
        (split; [lia|]);
        replace (total_frames stats + Z.of_nat (S n))%Z
          with (total_frames stats + 1 + Z.of_nat n)%Z by lia;
        split; lia.
  - revert stats. induction n as [|n IH]; intros stats.
    + simpl. split; [lia|]. split; lia.
    + cbn [process_frames]. unfold should_process_frame at 1.
      rewrite Hmode. simpl.
      match goal with
      | |- context [process_frames n self ?st] =>
          specialize (IH st); destruct (process_frames n self st)
            as [count final]
      end.
      simpl in IH. destruct IH as (Htotal & Hcount & Hskip).
      split; [lia|]. split; lia.
Qed.

Lemma should_process_frame_counts self stats :
  (0 <= frames_skipped stats <= total_frames stats)%Z ->
  (0 <= frames_skipped (should_process_frame self stats).2
   <= total_frames (should_process_frame self stats).2)%Z.
Proof.
  intros Hinv. unfold should_process_frame.
  case_bool_decide; simpl; [|lia].
  destruct (_ =? 0)%Z; simpl; lia.
Qed.

Lemma frames_through_counts selves stats :
  (0 <= frames_skipped stats <= total_frames stats)%Z ->
  (0 <= frames_skipped (frames_through selves stats)
   <= total_frames (frames_through selves stats))%Z.
Proof.
  revert stats. induction selves as [|self rest IH]; intros stats Hinv;
    [exact Hinv|].
  unfold frames_through. simpl. apply IH.
  by apply should_process_frame_counts.
Qed.

(** X15. From the statistics of a new optimizer, through any number of
    [should_process_frame] calls and whatever the mode at each of them, no
    more frames are counted as skipped than were counted in all, and the
    skip rate of [get_stats] lies between 0 and 1 (0 before the first
    frame, where the code divides by 1 instead of by the zero total). *)
Theorem skip_rate_between_0_and_1 selves now :
  let stats := frames_through selves (init_stats now) in
  (0 <= frames_skipped stats <= total_frames stats)%Z /\
  0 <= skip_rate stats /\ skip_rate stats <= 1 /\
  skip_rate (init_stats now) == 0.
Proof.
  intros stats.
  assert (0 <= frames_skipped stats <= total_frames stats)%Z as Hinv
      by (apply frames_through_counts; simpl; lia).
  split; [exact Hinv|]. unfold skip_rate.
  assert (0 < inject_Z (Z.max (total_frames stats) 1)) as Hpos.
  { change 0 with (inject_Z 0). rewrite <- Zlt_Qlt. lia. }
  assert (0 <= inject_Z (frames_skipped stats)) as Hnum.
  { change 0 with (inject_Z 0). rewrite <- Zle_Qle. lia. }
  assert (inject_Z (frames_skipped stats)
          <= inject_Z (Z.max (total_frames stats) 1)) as Hle.
  { rewrite <- Zle_Qle. lia. }
  split; [|split; [|reflexivity]].
  - apply Qle_shift_div_l; [exact Hpos|lra].
  - apply Qle_shift_div_r; [exact Hpos|lra].
Qed.

(** X16. After [update_battery_status] off the charger at a level of 20
    or less, [should_call_ollama] refuses every call, whatever the time
    elapsed, and counts it as skipped; above 20, or on the charger, it
    allows a call exactly when the interval of the selected profile has
    elapsed (2.0 s from 21 to 50 off the charger, 1.0 s otherwise) and
    counts nothing. *)
Theorem should_call_ollama_by_level
    level charging before current_time last_call_time stats :
  let self := update_battery_status level charging before in
  let '(allowed, stats') :=
    should_call_ollama current_time last_call_time self stats in
  if negb charging && (level <=? 20)%Z then
    allowed = false /\
    ollama_calls_skipped stats' = (ollama_calls_skipped stats + 1)%Z
  else
    let interval :=
      if negb charging && (level <=? 50)%Z then 2.0 else 1.0 in
    (allowed = true <-> interval <= current_time - last_call_time) /\
    stats' = stats.
Proof.
  intros self. unfold should_call_ollama, get_current_profile.
  subst self. rewrite update_battery_status_mode.
  unfold spec_power_mode.
  destruct charging; simpl.
  - destruct (Qltb_spec (current_time - last_call_time) 1.0) as [Hlt|Hge].
    + split; [|reflexivity]. split; [discriminate|]. intros Hle. lra.
    + apply Qnot_lt_le in Hge. by split.
  - destruct (Z.leb_spec level 10), (Z.leb_spec level 20),
      (Z.leb_spec level 50), (Z.ltb_spec 10 level), (Z.ltb_spec 20 level);
      try lia; simpl; try (split; reflexivity).
    + destruct (Qltb_spec (current_time - last_call_time) 2.0) as [Hlt|Hge].
      * split; [|reflexivity]. split; [discriminate|]. intros Hle. lra.
      * apply Qnot_lt_le in Hge. by split.
    + destruct (Qltb_spec (current_time - last_call_time) 1.0) as [Hlt|Hge].
      * split; [|reflexivity]. split; [discriminate|]. intros Hle. lra.
      * apply Qnot_lt_le in Hge. by split.
Qed.

Lemma update_battery_status_level level charging before :
  battery_level (update_battery_status level charging before) = level.
Proof.
  unfold update_battery_status, switch_mode.
  repeat match goal with
         | |- context [if ?b then _ else _] => destruct b
         end; reflexivity.
Qed.

Lemma battery_life_bound (l c : Q) :
  0 <= l -> 0 < c -> 40 * l <= 5 * c ->
  0 <= 4000 * (l / 100) / c /\ 4000 * (l / 100) / c <= 5.
Proof.
  intros Hl Hc Hle.
  assert (4000 * (l / 100) / c == 40 * l / c) as -> by (field; lra).
  split.
  - apply Qle_shift_div_l; [exact Hc|lra].
  - apply Qle_shift_div_r; [exact Hc|lra].
Qed.

(** X17. For a level between 0 and 100, the battery life estimated right
    after [update_battery_status] is never negative and never above five
    hours, on or off the charger. *)
Theorem estimate_battery_life_at_most_5_hours level charging before :
  (0 <= level <= 100)%Z ->
  let self := update_battery_status level charging before in
  0 <= estimate_battery_life self /\ estimate_battery_life self <= 5.
Proof.
  intros [Hlo Hhi] self. unfold estimate_battery_life. subst self.
  rewrite update_battery_status_mode, update_battery_status_level.
  assert (0 <= inject_Z level) as Hlo'.
  { change 0 with (inject_Z 0). by rewrite <- Zle_Qle. }
  assert (inject_Z level <= 100) as Hhi'.
  { change 100 with (inject_Z 100). by rewrite <- Zle_Qle. }
  unfold spec_power_mode.
  destruct charging; simpl.
  { apply battery_life_bound; [exact Hlo'|reflexivity|].
    change (inject_Z 800) with 800. lra. }
  destruct (Z.leb_spec level 10) as [H10|H10]; simpl.
  { assert (inject_Z level <= 10) as Hq.
    { change 10 with (inject_Z 10). by rewrite <- Zle_Qle. }
    apply battery_life_bound; [exact Hlo'|reflexivity|].
    change (inject_Z 150) with 150. lra. }
  destruct (Z.ltb_spec 10 level); [|lia].
  destruct (Z.leb_spec level 20) as [H20|H20]; simpl.
  { assert (inject_Z level <= 20) as Hq.
    { change 20 with (inject_Z 20). by rewrite <- Zle_Qle. }
    apply battery_life_bound; [exact Hlo'|reflexivity|].
    change (inject_Z 300) with 300. lra. }
  destruct (Z.ltb_spec 20 level); [|lia].
  destruct (Z.leb_spec level 50) as [H50|H50]; simpl.
  { assert (inject_Z level <= 50) as Hq.
    { change 50 with (inject_Z 50). by rewrite <- Zle_Qle. }
    apply battery_life_bound; [exact Hlo'|reflexivity|].
    change (inject_Z 500) with 500. lra. }
  apply battery_life_bound; [exact Hlo'|reflexivity|].
  change (inject_Z 800) with 800. lra.
Qed.

End Battery.

Lemma estimate_battery_life_at_most_5_hours_witness :
  (0 <= 100 <= 100)%Z /\
  BatteryOptimizer.estimate_battery_life
    (BatteryOptimizer.update_battery_status 100 false BatteryOptimizer.init)
  <= 5.
Proof.
  assert (0 <= 100 <= 100)%Z as Hlevel by lia.
  split; [exact Hlevel|].
  exact (proj2 (estimate_battery_life_at_most_5_hours 100 false
                  BatteryOptimizer.init Hlevel)).
Defined.

(** ** Frames through the queue *)

Section FrameFlow.

Import CameraHandler.

Variable Frame : Type.

Implicit Types s : State Frame.

Lemma step_flow a s s' :
  step a s = Some s' ->
  delivered a s ++ frames s' ++ in_hand s'
  = frames s ++ in_hand s ++ accepted a s.
Proof.
  unfold step, delivered, accepted, frames, in_hand.
  destruct a as [processed_frame| |].
  - destruct (capture s) as [|held] eqn:Hcap; [|discriminate].
    destruct (full (frame_queue s)); simpl; intros [= <-]; simpl.
    + by rewrite Hcap.
    + reflexivity.
  - destruct (capture s) as [|held] eqn:Hcap; [discriminate|].
    unfold put. destruct (full (frame_queue s)); simpl; [discriminate|].
    intros [= <-]. simpl. by rewrite !app_nil_r.
  - unfold empty, qsize, get.
    destruct (capture s) as [|held] eqn:Hcap;
      destruct (items (frame_queue s)) as [|item rest] eqn:Hi; simpl;
      intros [= <-]; simpl; rewrite ?Hi, ?Hcap, ?app_nil_r; reflexivity.
Qed.

(** X18. Whatever the buffer size and the interleaving of the two threads,
    the frames handed to the consumer, followed by the frames still in the
    queue and the frame the capture thread may hold, are exactly the frames
    the capture thread let in, in the order it captured them: a frame that
    passed the fullness test is delivered once, in order, or is still
    waiting. *)
Theorem frames_flow_in_order cfg actions s acc del :
  run_log actions (init cfg) = Some (s, acc, del) ->
  del ++ frames s ++ in_hand s = acc.
Proof.
  assert (forall s0,
             run_log actions s0 = Some (s, acc, del) ->
             del ++ frames s ++ in_hand s
             = frames s0 ++ in_hand s0 ++ acc) as Hgen.
  { revert acc del. induction actions as [|a rest IH];
      intros acc del s0; simpl.
    - intros [= <- <- <-]. by rewrite !app_nil_r.
    - destruct (step a s0) as [s1|] eqn:Hstep; simpl; [|discriminate].
      destruct (run_log rest s1) as [[[final acc1] del1]|] eqn:Hrun;
        simpl; [|discriminate].
      intros [= <- <- <-].
      pose proof (IH _ _ _ Hrun) as Hrest.
      pose proof (step_flow _ _ _ Hstep) as Hone.
      rewrite <- app_assoc, Hrest, !app_assoc.
      rewrite !app_assoc in Hone. by rewrite Hone. }
  intros Hrun. by rewrite (Hgen _ Hrun).
Qed.

End FrameFlow.

Lemma frames_flow_in_order_witness :
  CameraHandler.run_log (capture_three ++ [CameraHandler.Read])
    (CameraHandler.init small_camera)
  = Some (CameraHandler.mkState (CameraHandler.mkQueue 2 [2%nat])
            CameraHandler.Idle, [1; 2]%nat, [1%nat]) /\
  [1%nat] ++ [2%nat] ++ [] = [1; 2]%nat.
Proof.
  assert (CameraHandler.run_log (capture_three ++ [CameraHandler.Read])
            (CameraHandler.init small_camera)
          = Some (CameraHandler.mkState (CameraHandler.mkQueue 2 [2%nat])
                    CameraHandler.Idle, [1; 2]%nat, [1%nat])) as Hrun
      by reflexivity.
  split; [exact Hrun|].
  exact (frames_flow_in_order nat small_camera _ _ _ _ Hrun).
Defined.

(** ** Frame rate and battery *)

(** X19. With adaptive frame rate on, [update_battery] sets the processing
    rate to 2, 3 or 5 frames per second, and a higher level never gets a
    lower rate, whatever the configured saving threshold; with it off, the
    rate is left as it was. *)
Theorem update_battery_rate threshold level level' fps :
  (level <= level')%Z ->
  AdaptiveCameraHandler.update_battery true threshold level fps
    ∈ [2; 3; 5]%Z /\
  (AdaptiveCameraHandler.update_battery true threshold level fps
   <= AdaptiveCameraHandler.update_battery true threshold level' fps)%Z /\
  AdaptiveCameraHandler.update_battery false threshold level fps = fps.
Proof.
  intros Hle. unfold AdaptiveCameraHandler.update_battery.
  split; [|split; [|reflexivity]].
  - destruct (level <? threshold)%Z; [in_list|].
    destruct (level <? 50)%Z; in_list.
  - destruct (Z.ltb_spec level threshold), (Z.ltb_spec level' threshold),
      (Z.ltb_spec level 50), (Z.ltb_spec level' 50); lia.
Qed.

Lemma update_battery_rate_witness :
  (15 <= 60)%Z /\
  (AdaptiveCameraHandler.update_battery true 20 15 5
   <= AdaptiveCameraHandler.update_battery true 20 60 5)%Z.
Proof.
  assert (15 <= 60)%Z as Hle by lia.
  split; [exact Hle|].
  exact (proj1 (proj2 (update_battery_rate 20 15 60 5 Hle))).
Defined.

(** ** Cleaning the reply of the language model *)

Section Cleaning.

Import LanguageProcessor.

Context {Char : Type} `{EqDecision Char}.
Variables (asterisk hash dot : Char).
Variable is_space : Char -> bool.

Hypothesis dot_not_asterisk : dot <> asterisk.
Hypothesis dot_not_hash : dot <> hash.
Hypothesis dot_not_space : is_space dot = false.

Implicit Types text : list Char.

Lemma remove_char_elem c x text :
  x ∈ remove_char c text <-> x <> c /\ x ∈ text.
Proof.
  unfold remove_char. exact (list_elem_of_filter (fun y => y <> c) text x).
Qed.

Lemma remove_char_absent c text : c ∉ text -> remove_char c text = text.
Proof.
  unfold remove_char. induction text as [|x text IH]; intros Hc;
    [reflexivity|].
  apply not_elem_of_cons in Hc as [Hne Hc].
  rewrite filter_cons, decide_True by congruence. by rewrite IH.
Qed.

Lemma lstrip_suffix text : exists spaces, text = spaces ++ lstrip is_space text.
Proof.
  induction text as [|c text [spaces IH]]; [by exists []|]. simpl.
  destruct (is_space c); [|by exists []].
  exists (c :: spaces). simpl. by rewrite <- IH.
Qed.

Lemma lstrip_starts_clean text : starts_clean is_space (lstrip is_space text).
Proof.
  induction text as [|c text IH]; [exact I|]. simpl.
  destruct (is_space c) eqn:Hc; [exact IH|exact Hc].
Qed.

Lemma lstrip_fixed text :
  starts_clean is_space text -> lstrip is_space text = text.
Proof. destruct text as [|c text]; simpl; [done|]. by intros ->. Qed.

Lemma starts_clean_prefix text rest :
  starts_clean is_space (text ++ rest) -> text <> [] ->
  starts_clean is_space text.
Proof. by destruct text. Qed.

Lemma str_strip_clean text :
  starts_clean is_space (str_strip is_space text) /\
  starts_clean is_space (reverse (str_strip is_space text)) /\
  forall x, x ∈ str_strip is_space text -> x ∈ text.
Proof.
  unfold str_strip.
  destruct (lstrip_suffix text) as [front Hfront].
  destruct (lstrip_suffix (reverse (lstrip is_space text))) as [back Hback].
  set (core := lstrip is_space (reverse (lstrip is_space text))) in *.
  assert (lstrip is_space text = reverse core ++ reverse back) as Hmid.
  { rewrite <- reverse_app, <- Hback. by rewrite reverse_involutive. }
  split; [|split].
  - destruct (decide (reverse core = [])) as [->|Hne]; [exact I|].
    eapply starts_clean_prefix; [|exact Hne].
    rewrite <- Hmid. apply lstrip_starts_clean.
  - rewrite reverse_involutive. apply lstrip_starts_clean.
  - intros x Hx. rewrite Hfront, Hmid, !elem_of_app. right. by left.
Qed.

Lemma str_strip_fixed text :
  starts_clean is_space text -> starts_clean is_space (reverse text) ->
  str_strip is_space text = text.
Proof.
  intros Hfront Hback. unfold str_strip.
  by rewrite (lstrip_fixed _ Hfront), (lstrip_fixed _ Hback),
    reverse_involutive.
Qed.

Lemma before_last_dot_Some text head :
  before_last_dot dot text = Some head ->
  exists tail, text = head ++ dot :: tail.
Proof.
  revert head. induction text as [|c text IH]; intros head; simpl;
    [discriminate|].
  destruct (before_last_dot dot text) as [h|].
  - intros [= <-]. destruct (IH h eq_refl) as [tail ->]. by exists tail.
  - destruct (decide (c = dot)) as [->|]; [|discriminate].
    intros [= <-]. by exists text.
Qed.

Lemma rsplit_first_prefix text :
  exists rest, text = rsplit_first dot text ++ rest.
Proof.
  unfold rsplit_first.
  destruct (before_last_dot dot text) as [head|] eqn:Hsplit; simpl.
  - destruct (before_last_dot_Some _ _ Hsplit) as [tail ->]. by eexists.
  - exists []. by rewrite app_nil_r.
Qed.

(** What [_clean_description] does to a text that is already free of the
    two symbols and of surrounding whitespace. *)
Lemma clean_description_clean text :
  asterisk ∉ text -> hash ∉ text ->
  starts_clean is_space text -> starts_clean is_space (reverse text) ->
  _clean_description asterisk hash dot is_space text
  = if (200 <? length text)%nat
    then rsplit_first dot (take 200 text) ++ [dot]
    else text.
Proof.
  intros Ha Hh Hfront Hback. unfold _clean_description.
  by rewrite (remove_char_absent _ _ Ha), (remove_char_absent _ _ Hh),
    (str_strip_fixed _ Hfront Hback).
Qed.

(** X20. The text [_clean_description] returns holds no asterisk and no
    hash sign, is at most 201 characters long (the first 200 of the
    stripped text, cut before their last full stop if they have one, and a
    full stop added), ends with a full stop whenever the stripped text was
    longer than 200, and is left unchanged by a second cleaning. *)
Theorem clean_description_idempotent text :
  let cleaned := _clean_description asterisk hash dot is_space text in
  (asterisk ∉ cleaned) /\ (hash ∉ cleaned) /\
  (length cleaned <= 201)%nat /\
  ((200 < length (str_strip is_space
                    (remove_char hash (remove_char asterisk text))))%nat ->
   last cleaned = Some dot) /\
  _clean_description asterisk hash dot is_space cleaned = cleaned.
Proof.
  intros cleaned. subst cleaned.
  set (core := str_strip is_space
                 (remove_char hash (remove_char asterisk text))).
  assert (_clean_description asterisk hash dot is_space text
          = if (200 <? length core)%nat
            then rsplit_first dot (take 200 core) ++ [dot]
            else core) as -> by reflexivity.
  destruct (str_strip_clean (remove_char hash (remove_char asterisk text)))
    as (Hfront & Hback & Hsub). fold core in Hfront, Hback, Hsub.
  assert (asterisk ∉ core) as Ha.
  { intros Hin%Hsub. apply remove_char_elem in Hin as [_ Hin].
    apply remove_char_elem in Hin as [Hne _]. by apply Hne. }
  assert (hash ∉ core) as Hh.
  { intros Hin%Hsub. apply remove_char_elem in Hin as [Hne _].
    by apply Hne. }
  destruct (Nat.ltb_spec 200 (length core)) as [Hlong|Hshort].
  - destruct (rsplit_first_prefix (take 200 core)) as [rest Hrest].
    set (head := rsplit_first dot (take 200 core)) in *.
    assert (length (take 200 core) = 200%nat) as Hlen
        by (rewrite length_take; lia).
    assert (forall x, x ∈ head -> x ∈ core) as Hhead.
    { intros x Hx. eapply elem_of_sublist; [|apply (sublist_take core 200)].
      rewrite Hrest. apply elem_of_app. by left. }
    assert (asterisk ∉ head ++ [dot]) as Ha'.
    { rewrite not_elem_of_app, list_elem_of_singleton. split; [|congruence].
      intros Hx. by apply Ha, Hhead. }
    assert (hash ∉ head ++ [dot]) as Hh'.
    { rewrite not_elem_of_app, list_elem_of_singleton. split; [|congruence].
      intros Hx. by apply Hh, Hhead. }
    assert (length head <= 200)%nat as Hhlen.
    { rewrite <- Hlen, Hrest at 1. rewrite length_app. lia. }
    split; [exact Ha'|]. split; [exact Hh'|].
    split; [rewrite length_app; simpl; lia|].
    split; [intros _; apply last_snoc|].
    rewrite clean_description_clean; [|exact Ha'|exact Hh'| |].
    + rewrite length_app; simpl.
      destruct (Nat.ltb_spec 200 (length head + 1)) as [Hfull|_];
        [|reflexivity].
      assert (length head = 200%nat) as Hh200 by lia.
      assert (rest = []) as ->.
      { apply (f_equal length) in Hrest. rewrite length_app in Hrest.
        apply length_zero_iff_nil. lia. }
      rewrite app_nil_r in Hrest.
      rewrite <- Hh200 at 1. rewrite take_app_length.
      subst head. by rewrite <- Hrest at 1.
    + destruct head as [|x head'] eqn:Hhd; [exact dot_not_space|].
      assert (starts_clean is_space (take 200 core)) as Hstart.
      { rewrite <- (take_drop 200 core) in Hfront.
        eapply starts_clean_prefix; [exact Hfront|].
        intros Hnil. rewrite Hnil in Hlen. discriminate. }
      rewrite Hrest in Hstart. exact Hstart.
    + rewrite reverse_snoc. exact dot_not_space.
  - split; [exact Ha|]. split; [exact Hh|]. split; [lia|].
    split; [lia|].
    rewrite clean_description_clean by assumption.
    destruct (Nat.ltb_spec 200 (length core)); [lia|reflexivity].
Qed.

End Cleaning.

(** An ASCII reply with markup and blanks around it. *)
Lemma clean_description_idempotent_witness :
  "."%char <> "*"%char /\ "."%char <> "#"%char /\
  ascii_space "."%char = false /\
  LanguageProcessor._clean_description "*"%char "#"%char "."%char ascii_space
    (list_ascii_of_string "Persona cerca.")
  = list_ascii_of_string "Persona cerca.".
Proof.
  assert ("."%char <> "*"%char) as Hstar by discriminate.
  assert ("."%char <> "#"%char) as Hhash by discriminate.
  assert (ascii_space "."%char = false) as Hspace by reflexivity.
  split; [exact Hstar|]. split; [exact Hhash|]. split; [exact Hspace|].
  exact (proj2 (proj2 (proj2 (proj2
           (clean_description_idempotent "*"%char "#"%char "."%char
              ascii_space Hstar Hhash Hspace
              (list_ascii_of_string "  **Persona cerca.**  # ")))))).
Defined.

(** ** Class names *)

(** X21. Translating a class name twice gives what translating it once
    gives (no Spanish name in the table is itself an entry of the table);
    a name without entry is returned as it is; and every class of the
    default priority list has an entry. *)
Theorem translate_class_idempotent class_name :
  LanguageProcessor.translate_class
    (LanguageProcessor.translate_class class_name)
  = LanguageProcessor.translate_class class_name /\
  (LanguageProcessor.translations !! class_name = None ->
   LanguageProcessor.translate_class class_name = class_name) /\
  Forall (fun c => is_Some (LanguageProcessor.translations !! c))
    default_priority_classes.
Proof.
  unfold LanguageProcessor.translate_class. split; [|split].
  - destruct (LanguageProcessor.translations !! class_name)
      as [spanish|] eqn:Hentry; simpl; [|by rewrite Hentry].
    unfold LanguageProcessor.translations in Hentry.
    apply elem_of_list_to_map_2 in Hentry.
    repeat (apply elem_of_cons in Hentry as [[= -> ->]|Hentry];
            [vm_compute; reflexivity|]).
    by apply elem_of_nil in Hentry.
  - by intros ->.
  - unfold default_priority_classes.
    repeat (constructor; [vm_compute; by eexists|]). constructor.
Qed.

(** ** Filtering twice *)

Section FilterTwice.

Import ObjectDetector.

Variable cfg : YOLOConfig.

Lemma kept_kept det out : kept cfg det = Some out -> kept cfg out = Some out.
Proof.
  unfold kept.
  destruct (relevance cfg det) as [p|] eqn:Hrel; simpl; [|discriminate].
  intros [= <-].
  assert (relevance cfg (set_priority p det) = relevance cfg det) as ->
      by reflexivity.
  by rewrite Hrel.
Qed.

Lemma omap_kept_all detections :
  Forall (fun out => kept cfg out = Some out) (omap (kept cfg) detections).
Proof.
  apply Forall_forall. intros out (det & _ & Hk)%list_elem_of_omap.
  by eapply kept_kept.
Qed.

Lemma omap_kept_fixed relevant :
  Forall (fun out => kept cfg out = Some out) relevant ->
  omap (kept cfg) relevant = relevant.
Proof.
  induction 1 as [|out rest Hk _ IH]; csimpl; [reflexivity|].
  by rewrite Hk, IH.
Qed.

(** X22. Filtering an already filtered list changes nothing: the same
    detections, with the same priorities, in the same order. *)
Theorem filter_relevant_idempotent detections :
  filter_relevant cfg (filter_relevant cfg detections)
  = filter_relevant cfg detections.
Proof.
  rewrite !filter_relevant_omap.
  rewrite (omap_kept_fixed (take 5 (omap (kept cfg) detections)))
    by apply Forall_take, omap_kept_all.
  apply take_idemp.
Qed.

End FilterTwice.

(** ** The adaptive processor over successive calls *)

Section AdaptiveRun.

Import AdaptiveLanguageProcessor.

Variable strip : string -> string.
Variable clean_description : string -> string.
Variable cfg : PerformanceConfig.

Abbreviation generate := (generate_description strip clean_description cfg).
Abbreviation run_calls := (run strip clean_description cfg).

Lemma run_snoc calls call last :
  run_calls (calls ++ [call]) last
  = (let '(log, last1) := run_calls calls last in
     let '(result, last') :=
       generate (call_post call) (call_time call) (call_detections call)
         last1 in
     (log ++ [(call, result)], last')).
Proof.
  unfold run. rewrite foldl_app. simpl.
  by destruct (foldl _ _ calls) as [log last1].
Qed.

Lemma generate_description_cases post now detections last :
  let '(result, last') := generate post now detections last in
  (described result = true /\ last' = now /\
   (has_danger detections = false ->
    min_time_between_descriptions cfg <= now - last)) \/
  (described result = false /\ last' = last).
Proof.
  unfold generate_description.
  destruct (generate_description_returns strip clean_description
              post detections) as [text ->]. simpl.
  destruct (has_danger detections); [left; by repeat split|].
  destruct (Qltb_spec (now - last) (min_time_between_descriptions cfg))
    as [Hin|Hout]; [right; by split|].
  left. apply Qnot_lt_le in Hout. by repeat split.
Qed.

Lemma run_calls_spec calls last :
  StronglySorted Qle (call_time <$> calls) ->
  let '(log, last') := run_calls calls last in
  log.*1 = calls /\
  (forall a ra, (a, ra) ∈ log -> described ra = true ->
                call_time a <= last') /\
  forall i j a ra b rb,
    (i < j)%nat -> log !! i = Some (a, ra) -> log !! j = Some (b, rb) ->
    described ra = true -> described rb = true ->
    has_danger (call_detections b) = false ->
    min_time_between_descriptions cfg <= call_time b - call_time a.
Proof.
  induction calls as [|call calls IH] using rev_ind; intros Hs.
  - simpl. split; [reflexivity|]. split.
    + intros a ra Hin. by apply elem_of_nil in Hin.
    + intros i j a ra b rb _ Hi. by rewrite lookup_nil in Hi.
  - rewrite fmap_app in Hs. apply StronglySorted_app in Hs
      as (Hbefore & Hs & _).
    specialize (IH Hs). rewrite run_snoc.
    destruct (run_calls calls last) as [log last1].
    destruct IH as (Hcalls & Hlast & Hpairs).
    pose proof (generate_description_cases (call_post call)
                  (call_time call) (call_detections call) last1) as Hcase.
    destruct (generate (call_post call) (call_time call)
                (call_detections call) last1) as [result last'].
    assert (forall a ra, (a, ra) ∈ log -> call_time a <= call_time call)
      as Hearlier.
    { intros a ra Hin. apply Hbefore.
      - apply list_elem_of_fmap. exists a. split; [reflexivity|].
        rewrite <- Hcalls. apply list_elem_of_fmap. by exists (a, ra).
      - simpl. apply list_elem_of_here. }
    split; [by rewrite fmap_app, Hcalls|]. split.
    + intros a ra [Hin|Hin]%elem_of_app Hd.
      * destruct Hcase as [(_ & -> & _)|(_ & ->)];
          [by eapply Hearlier|by eapply Hlast].
      * apply list_elem_of_singleton in Hin as [= -> ->].
        destruct Hcase as [(_ & -> & _)|(Hno & _)];
          [apply Qle_refl|congruence].
    + intros i j a ra b rb Hij Hi Hj Hda Hdb Hsafe.
      destruct (decide (j < length log)%nat) as [Hin|Hout].
      * rewrite lookup_app_l in Hi by lia. rewrite lookup_app_l in Hj by lia.
        by eapply (Hpairs i j).
      * rewrite lookup_app_r in Hj by lia.
        destruct (j - length log)%nat as [|k] eqn:Hk; [|by destruct k].
        injection Hj as <- <-.
        rewrite lookup_app_l in Hi by lia.
        apply list_elem_of_lookup_2 in Hi.
        destruct Hcase as [(_ & _ & Hgap)|(Hno & _)]; [|congruence].
        pose proof (Hlast _ _ Hi Hda). pose proof (Hgap Hsafe). lra.
Qed.

(** X23. Over successive calls of the adaptive [generate_description]
    whose clock readings never go back, a description produced without a
    detection inside the danger distance comes at least the minimum
    interval after every description produced before it, those produced
    under danger included; only danger shortens the gap. *)
Theorem adaptive_descriptions_paced calls last i j a ra b rb :
  Sorted Qle (call_time <$> calls) ->
  (i < j)%nat ->
  (run_calls calls last).1 !! i = Some (a, ra) ->
  (run_calls calls last).1 !! j = Some (b, rb) ->
  described ra = true -> described rb = true ->
  has_danger (call_detections b) = false ->
  min_time_between_descriptions cfg <= call_time b - call_time a.
Proof.
  intros Hs. apply (Sorted_StronglySorted Qle) in Hs.
  pose proof (run_calls_spec calls last Hs) as Hspec.
  destruct (run_calls calls last) as [log last']. simpl.
  destruct Hspec as (_ & _ & Hpairs). apply Hpairs.
Qed.

End AdaptiveRun.

(** The first and the third call of [three_descriptions] are 2.5 s
    apart. *)
Lemma adaptive_descriptions_paced_witness :
  Sorted Qle (AdaptiveLanguageProcessor.call_time <$> three_descriptions) /\
  min_time_between_descriptions default_performance <= 1002.5 - 1000.
Proof.
  assert (Sorted Qle
            (AdaptiveLanguageProcessor.call_time <$> three_descriptions))
    as Hs by (repeat constructor; discriminate).
  split; [exact Hs|].
  exact (adaptive_descriptions_paced id id default_performance
           three_descriptions AdaptiveLanguageProcessor.init 0%nat 2%nat
           (AdaptiveLanguageProcessor.mkCall 1000
              [sample "person" 3.0 "frente"] (Raised Timeout))
           (Returned (Some "persona  frente a ti"))
           (AdaptiveLanguageProcessor.mkCall 1002.5
              [sample "person" 3.0 "frente"] (Raised Timeout))
           (Returned (Some "persona  frente a ti"))
           Hs ltac:(lia) ltac:(vm_compute; reflexivity)
           ltac:(vm_compute; reflexivity) eq_refl eq_refl eq_refl).
Defined.
